(** * Storj gateway: multipart-upload adapter and in-memory credential store

  A shallow embedding of [miniogw/multipart.go] and
  [auth/memauth/memauth.go], with the properties of their specification. *)

From Stdlib Require Import ZArith List String Ascii Strings.Byte Lia Bool.
From Stdlib Require Import Sorting.Sorted Sorting.Permutation.
From Stdlib Require Import DecimalString.
From stdpp Require Import base option list gmap strings.
Import ListNotations.

Local Open Scope Z_scope.

(** ** Go's built-in [int] (64 bits, two's complement) *)
Module GoInt.

Definition minInt : Z := - 2 ^ 63.
Definition maxInt : Z := 2 ^ 63 - 1.

(** Wrap-around of a mathematical integer into the range of [int]. *)
Definition wrap (z : Z) : Z := (z + 2 ^ 63) mod 2 ^ 64 - 2 ^ 63.

Definition add (a b : Z) : Z := wrap (a + b).
Definition sub (a b : Z) : Z := wrap (a - b).

Definition in_range (z : Z) : Prop := minInt <= z <= maxInt.

End GoInt.

(** ** Bytes and strings

  A Go [string] is a sequence of bytes; it is modelled by [string], and a
  [[]byte] by [list byte]. *)
Module GoBytes.

Definition byte_of_Z (z : Z) : byte :=
  match Byte.of_N (Z.to_N (z mod 256)) with
  | Some b => b
  | None => x00
  end.

Definition Z_of_byte (b : byte) : Z := Z.of_N (Byte.to_N b).

(** [[]byte(s)] *)
Definition bytes_of_string (s : string) : list byte := list_byte_of_string s.

End GoBytes.

(** ** crypto/md5 (RFC 1321) *)
Module GoMD5.
Import GoBytes.

Definition add32 (a b : Z) : Z := (a + b) mod 2 ^ 32.
Definition not32 (x : Z) : Z := Z.lxor x 0xffffffff.
Definition rotl32 (x c : Z) : Z :=
  Z.lor (Z.shiftl x c mod 2 ^ 32) (Z.shiftr x (32 - c)).

Definition shifts : list Z :=
  [ 7; 12; 17; 22; 7; 12; 17; 22; 7; 12; 17; 22; 7; 12; 17; 22;
    5;  9; 14; 20; 5;  9; 14; 20; 5;  9; 14; 20; 5;  9; 14; 20;
    4; 11; 16; 23; 4; 11; 16; 23; 4; 11; 16; 23; 4; 11; 16; 23;
    6; 10; 15; 21; 6; 10; 15; 21; 6; 10; 15; 21; 6; 10; 15; 21 ].

Definition sines : list Z :=
  [ 0xd76aa478; 0xe8c7b756; 0x242070db; 0xc1bdceee;
    0xf57c0faf; 0x4787c62a; 0xa8304613; 0xfd469501;
    0x698098d8; 0x8b44f7af; 0xffff5bb1; 0x895cd7be;
    0x6b901122; 0xfd987193; 0xa679438e; 0x49b40821;
    0xf61e2562; 0xc040b340; 0x265e5a51; 0xe9b6c7aa;
    0xd62f105d; 0x02441453; 0xd8a1e681; 0xe7d3fbc8;
    0x21e1cde6; 0xc33707d6; 0xf4d50d87; 0x455a14ed;
    0xa9e3e905; 0xfcefa3f8; 0x676f02d9; 0x8d2a4c8a;
    0xfffa3942; 0x8771f681; 0x6d9d6122; 0xfde5380c;
    0xa4beea44; 0x4bdecfa9; 0xf6bb4b60; 0xbebfbc70;
    0x289b7ec6; 0xeaa127fa; 0xd4ef3085; 0x04881d05;
    0xd9d4d039; 0xe6db99e5; 0x1fa27cf8; 0xc4ac5665;
    0xf4292244; 0x432aff97; 0xab9423a7; 0xfc93a039;
    0x655b59c3; 0x8f0ccc92; 0xffeff47d; 0x85845dd1;
    0x6fa87e4f; 0xfe2ce6e0; 0xa3014314; 0x4e0811a1;
    0xf7537e82; 0xbd3af235; 0x2ad7d2bb; 0xeb86d391 ].

(** Little-endian bytes of a number, [n] of them. *)
Fixpoint le_bytes (n : nat) (z : Z) : list byte :=
  match n with
  | O => []
  | S n' => byte_of_Z z :: le_bytes n' (Z.shiftr z 8)
  end.

Fixpoint le_value (bs : list byte) : Z :=
  match bs with
  | [] => 0
  | b :: bs' => Z_of_byte b + 256 * le_value bs'
  end.

(** The sixteen 32-bit words of a 64-byte block. *)
Fixpoint block_words (n : nat) (bs : list byte) : list Z :=
  match n with
  | O => []
  | S n' => le_value (firstn 4 bs) :: block_words n' (skipn 4 bs)
  end.

Definition state : Type := Z * Z * Z * Z.

Definition init : state := (0x67452301, 0xefcdab89, 0x98badcfe, 0x10325476).

Definition step (M : list Z) (st : state) (i : nat) : state :=
  let '(A, B, C, D) := st in
  let '(F, g) :=
    if (i <? 16)%nat then
      (Z.lor (Z.land B C) (Z.land (not32 B) D), i)
    else if (i <? 32)%nat then
      (Z.lor (Z.land D B) (Z.land (not32 D) C), ((5 * i + 1) mod 16)%nat)
    else if (i <? 48)%nat then
      (Z.lxor B (Z.lxor C D), ((3 * i + 5) mod 16)%nat)
    else
      (Z.lxor C (Z.lor B (not32 D)), ((7 * i) mod 16)%nat) in
  let F' := add32 (add32 (add32 F A) (nth i sines 0)) (nth g M 0) in
  (D, add32 B (rotl32 F' (nth i shifts 0)), B, C).

Definition block (st : state) (bs : list byte) : state :=
  let M := block_words 16 bs in
  let '(a0, b0, c0, d0) := st in
  let '(A, B, C, D) := fold_left (step M) (seq 0 64) st in
  (add32 a0 A, add32 b0 B, add32 c0 C, add32 d0 D).

Fixpoint blocks (n : nat) (st : state) (bs : list byte) : state :=
  match n with
  | O => st
  | S n' => blocks n' (block st (firstn 64 bs)) (skipn 64 bs)
  end.

Definition padding (len : nat) : list byte :=
  x80 :: repeat x00 ((119 - len mod 64) mod 64)%nat
    ++ le_bytes 8 ((8 * Z.of_nat len) mod 2 ^ 64).

(** [md5.Sum] *)
Definition Sum (data : list byte) : list byte :=
  let padded := data ++ padding (length data) in
  let '(A, B, C, D) := blocks (length padded / 64)%nat init padded in
  le_bytes 4 A ++ le_bytes 4 B ++ le_bytes 4 C ++ le_bytes 4 D.

End GoMD5.

(** ** encoding/hex *)
Module GoHex.
Import GoBytes.

Definition hextable : list ascii :=
  list_ascii_of_string "0123456789abcdef".

Definition hexdigit (n : Z) : ascii := nth (Z.to_nat n) hextable "0"%char.

(** [hex.EncodeToString] *)
Fixpoint EncodeToString (src : list byte) : string :=
  match src with
  | [] => EmptyString
  | b :: rest =>
      String (hexdigit (Z.shiftr (Z_of_byte b) 4))
        (String (hexdigit (Z.land (Z_of_byte b) 15)) (EncodeToString rest))
  end.

(** [fromHexChar] *)
Definition fromHexChar (c : ascii) : option Z :=
  let n := Z.of_nat (nat_of_ascii c) in
  if (48 <=? n) && (n <=? 57) then Some (n - 48)
  else if (97 <=? n) && (n <=? 102) then Some (n - 97 + 10)
  else if (65 <=? n) && (n <=? 70) then Some (n - 65 + 10)
  else None.

(** [hex.DecodeString]: [None] stands for either error ([ErrLength] or an
    [InvalidByteError]); the caller only tests the error against nil. *)
Fixpoint DecodeString (s : string) : option (list byte) :=
  match s with
  | EmptyString => Some []
  | String _ EmptyString => None
  | String c1 (String c2 rest) =>
      match fromHexChar c1, fromHexChar c2 with
      | Some a, Some b =>
          match DecodeString rest with
          | Some bs => Some (byte_of_Z (Z.lor (Z.shiftl a 4) b) :: bs)
          | None => None
          end
      | _, _ => None
      end
  end.

End GoHex.

(** ** strings and strconv *)
Module GoStrings.

(** The double-quote character, byte 34. *)
Definition dquote : ascii := "034"%char.
Definition dash : ascii := "-"%char.

Fixpoint dropByte (c : ascii) (l : list ascii) : list ascii :=
  match l with
  | [] => []
  | a :: rest => if Ascii.eqb a c then dropByte c rest else l
  end.

(** [for len(s) > 0 && s[0] == c { s = s[1:] }] *)
Definition trimLeftByte (s : string) (c : ascii) : string :=
  string_of_list_ascii (dropByte c (list_ascii_of_string s)).

(** [for len(s) > 0 && s[len(s)-1] == c { s = s[:len(s)-1] }] *)
Definition trimRightByte (s : string) (c : ascii) : string :=
  string_of_list_ascii (rev (dropByte c (rev (list_ascii_of_string s)))).

(** [strings.Trim] with a cutset of one ASCII byte. *)
Definition Trim (s : string) (c : ascii) : string :=
  trimLeftByte (trimRightByte s c) c.

(** [strings.IndexByte]: index of the first [c] in [s], or -1. *)
Fixpoint IndexByte (s : string) (c : ascii) : Z :=
  match s with
  | EmptyString => -1
  | String a rest =>
      if Ascii.eqb a c then 0
      else let p := IndexByte rest c in
           if p <? 0 then -1 else p + 1
  end.

(** The slice expression [s[:p]] for [0 <= p <= len(s)]. *)
Definition slice_to (s : string) (p : Z) : string :=
  substring 0 (Z.to_nat p) s.

(** [strings.HasSuffix] *)
Definition HasSuffix (s suffix : string) : bool :=
  (String.length suffix <=? String.length s)%nat
  && String.eqb
       (substring (String.length s - String.length suffix)
          (String.length suffix) s)
       suffix.

(** [strconv.Itoa] *)
Definition Itoa (n : Z) : string := NilZero.string_of_int (Z.to_int n).

End GoStrings.

(** ** sort

    [sort.Slice] leaves the slice sorted by [less]. It is modelled by the
    insertion sort that it runs on a short slice: each element in turn is
    moved to the left past the elements it is less than, so that elements
    that [less] does not separate keep their order. *)
Module GoSort.

(** The inner loop: [x] enters the sorted prefix, which is given from its
    last element to its first, and passes the elements it is less than. *)
Fixpoint insert {A : Type} (less : A -> A -> bool) (x : A) (prefix : list A)
  : list A :=
  match prefix with
  | [] => [x]
  | y :: rest => if less x y then y :: insert less x rest else x :: prefix
  end.

Definition Slice {A : Type} (less : A -> A -> bool) (l : list A) : list A :=
  rev (fold_left (fun prefix x => insert less x prefix) l []).

End GoSort.

(** ** Error values of the gateway *)
Module Errs.

Inductive error : Type :=
| ErrStreamIDInvalid
    (** [multipart.ErrStreamIDInvalid] *)
| ErrOther (msg : string)
    (** any other error of the storage network *)
| ErrWrap (msg : string) (cause : error)
    (** an error wrapping another one *)
| InvalidUploadID (bucket object uploadID : string)
    (** [minio.InvalidUploadID{Bucket, Object, UploadID}] *)
| BucketNameInvalid (bucket : string)
    (** [minio.BucketNameInvalid{Bucket}] *)
| UnsupportedDelimiter (delimiter : string)
    (** [minio.UnsupportedDelimiter{Delimiter}] *)
| Converted (err : error) (bucket object : string)
    (** the result of [convertError(err, bucket, object)] *)
| Combined (first second : error).
    (** the group that [errs.Combine] makes of two errors *)

(** [errs.Combine(a, b)]: nil errors are dropped, a single error is returned
    as it is, two errors are grouped. *)
Definition Combine (a b : option error) : option error :=
  match a, b with
  | None, None => None
  | Some e, None => Some e
  | None, Some e => Some e
  | Some e1, Some e2 => Some (Combined e1 e2)
  end.

(** The error a group stands for: [Unwrap] of a group is its first error. *)
Fixpoint Cause (e : error) : error :=
  match e with
  | Combined e1 _ => Cause e1
  | _ => e
  end.

(** [errors.Is(err, multipart.ErrStreamIDInvalid)] *)
Fixpoint IsStreamIDInvalid (e : error) : bool :=
  match e with
  | ErrStreamIDInvalid => true
  | ErrWrap _ cause => IsStreamIDInvalid cause
  | Combined e1 _ => IsStreamIDInvalid e1
  | _ => false
  end.

(** Modelled from the spec: [convertError] is defined in gateway.go, which is
    not among the sources; the specification has every failure other than
    the invalid upload ID surface as a generic wrapped storage error. *)
Definition convertError (err : error) (bucket object : string) : error :=
  Converted err bucket object.

Definition convertMultipartError (err : error) (bucket object uploadID : string)
  : error :=
  if IsStreamIDInvalid err then InvalidUploadID bucket object uploadID
  else convertError err bucket object.

End Errs.

(** ** miniogw: the aggregate ETag of a multipart upload *)
Module ETag.
Import GoBytes GoStrings.

(** [minio.CompletePart] *)
Record CompletePart : Type := mkCompletePart {
  PartNumber : Z;
  ETag : string
}.

Definition canonicalEtag (etag : string) : string :=
  let etag := Trim etag dquote in
  let p := IndexByte etag dash in
  if p >=? 0 then slice_to etag p else etag.

(** The body of the loop over [parts]. *)
Definition appendHash (hashes : list byte) (part : CompletePart) : list byte :=
  match GoHex.DecodeString (canonicalEtag (ETag part)) with
  | None => hashes ++ bytes_of_string (ETag part)
  | Some md5 => hashes ++ md5
  end.

(** The result is the pair of Go: the string and the error, which is nil. *)
Definition multipartUploadETag (parts : list CompletePart)
  : string * option Errs.error :=
  let hashes := fold_left appendHash parts [] in
  let sum := GoMD5.Sum hashes in
  ((GoHex.EncodeToString sum +:+ "-") +:+ Itoa (Z.of_nat (length parts)),
   None).

End ETag.

(** ** The aggregate ETag as the specification describes it *)
Module ETagSpec.
Import GoBytes GoStrings.

(** The characters of [s] before its first dash. *)
Fixpoint before_dash (s : string) : string :=
  match s with
  | EmptyString => EmptyString
  | String c rest =>
      if Ascii.eqb c dash then EmptyString else String c (before_dash rest)
  end.

(** Surrounding quote characters removed, the leading ones and then the
    trailing ones. *)
Definition trim_quotes (s : string) : string :=
  string_of_list_ascii
    (rev (dropByte dquote (rev (dropByte dquote (list_ascii_of_string s))))).

Definition is_digit (c : ascii) : bool :=
  let n := nat_of_ascii c in ((48 <=? n) && (n <=? 57))%nat.

(** A count: one or more decimal digits. *)
Fixpoint is_count (s : string) : bool :=
  match s with
  | EmptyString => false
  | String c EmptyString => is_digit c
  | String c rest => is_digit c && is_count rest
  end.

(** A trailing [-<count>] suffix removed, when there is one. *)
Fixpoint strip_count_suffix (s : string) : string :=
  match s with
  | EmptyString => EmptyString
  | String c rest =>
      if Ascii.eqb c dash && is_count rest then EmptyString
      else String c (strip_count_suffix rest)
  end.

(** The contribution of one part: the hex-decoded canonical hash, or the raw
    bytes of the ETag when that is not hex. [canon] recovers the canonical
    hash from the trimmed ETag. *)
Definition contribution_with (canon : string -> string) (etag : string)
  : list byte :=
  match GoHex.DecodeString (canon (trim_quotes etag)) with
  | Some h => h
  | None => bytes_of_string etag
  end.

(** The canonical hash is what precedes the first dash. *)
Definition contribution : string -> list byte :=
  contribution_with before_dash.

(** The canonical hash is what precedes a trailing [-<count>]. *)
Definition contribution_suffix : string -> list byte :=
  contribution_with strip_count_suffix.

(** [<hex-digest>-<part-count>] over the concatenated contributions. *)
Definition aggregate (contrib : string -> list byte) (etags : list string)
  : string :=
  GoHex.EncodeToString (GoMD5.Sum (concat (map contrib etags)))
    +:+ "-" +:+ Itoa (Z.of_nat (length etags)).

Definition ComputeAggregateETag (etags : list string) : string :=
  aggregate contribution_suffix etags.

End ETagSpec.

Module ETagShape.
Import GoStrings ETagSpec.

(** The text after the first dash of [s], if there is a dash, is a count. *)
Fixpoint count_after_first_dash (s : string) : bool :=
  match s with
  | EmptyString => true
  | String c rest =>
      if Ascii.eqb c dash then is_count rest else count_after_first_dash rest
  end.

(** An ETag in the S3 shape: optional quotes around a dash-free tag that may
    carry one [-<count>] suffix. *)
Definition conventional (etag : string) : bool :=
  count_after_first_dash (trim_quotes etag).

End ETagShape.

(** Sample parts used to exercise the aggregate ETag. *)
Module ETagSamples.
Import GoStrings ETag.

Definition two_parts : list CompletePart :=
  [ mkCompletePart 1 "900150983cd24fb0d6963f7d28e17f72-3";
    mkCompletePart 2 (String dquote ("0f5c" +:+ String dquote EmptyString)) ].

Definition part_aa : CompletePart := mkCompletePart 1 "aa".
Definition part_bb : CompletePart := mkCompletePart 2 "bb".
Definition part_ab : CompletePart := mkCompletePart 1 "ab".
Definition part_ab1 : CompletePart := mkCompletePart 2 "ab-1".

End ETagSamples.

(** ** auth: key hashes and records *)
Module Auth.

#[global] Instance byte_eq_decision : EqDecision byte := Byte.byte_eq_dec.

#[global] Instance byte_countable : Countable byte :=
  inj_countable Byte.to_N Byte.of_N Byte.of_to_N.

(** [auth.KeyHash], a [[32]byte]. *)
Definition KeyHash : Type := list byte.

(** [auth.Record] *)
Record Record : Type := mkRecord {
  SatelliteAddress : string;
  MacaroonHead : list byte;
  EncryptedSecretKey : list byte;
  EncryptedAccessGrant : list byte
}.

(** The errors of the store: [errs.New(msg)] and [auth.Invalid.New("%s", reason)]. *)
Inductive error : Type :=
| ErrNew (msg : string)
| InvalidNew (reason : string).

End Auth.

(** ** memauth: the key/value store backed by in-memory maps

    The mutex makes every method atomic; a method is a function of the state
    of the two maps. A [*auth.Record] is [None] when it is nil. *)
Module Memauth.
Import Auth.

Record KV : Type := mkKV {
  entries : gmap KeyHash (option Record);
  invalid : gmap KeyHash string
}.

Definition New : KV := {| entries := ∅; invalid := ∅ |}.

Definition Put (keyHash : KeyHash) (record : option Record) (d : KV)
  : KV * option error :=
  match entries d !! keyHash with
  | Some _ => (d, Some (ErrNew "record already exists"))
  | None =>
      ({| entries := <[keyHash := record]> (entries d); invalid := invalid d |},
       None)
  end.

Definition Get (keyHash : KeyHash) (d : KV)
  : KV * (option Record * option error) :=
  match invalid d !! keyHash with
  | Some reason => (d, (None, Some (InvalidNew reason)))
  | None =>
      (d, (match entries d !! keyHash with Some r => r | None => None end,
           None))
  end.

Definition Delete (keyHash : KeyHash) (d : KV) : KV * option error :=
  ({| entries := delete keyHash (entries d);
      invalid := delete keyHash (invalid d) |}, None).

Definition Invalidate (keyHash : KeyHash) (reason : string) (d : KV)
  : KV * option error :=
  match invalid d !! keyHash with
  | Some _ => (d, None)
  | None =>
      ({| entries := entries d; invalid := <[keyHash := reason]> (invalid d) |},
       None)
  end.

Definition Ping (d : KV) : KV * option error := (d, None).

End Memauth.

Module MemauthSamples.
Import Auth Memauth.

Definition key1 : KeyHash := repeat x2a 32.

Definition rec1 : Record :=
  mkRecord "TODO" [x54] [x54] (GoBytes.bytes_of_string "grant-1").

Definition rec2 : Record :=
  mkRecord "TODO" [x54] [x54] (GoBytes.bytes_of_string "grant-2").

(** A store in which [key1] was invalidated earlier with another reason. *)
Definition stale : KV := fst (Invalidate key1 "old" New).

End MemauthSamples.

(** ** Types of uplink and of its multipart package *)
Module Uplink.
Import Errs.

(** [time.Time], as an instant. *)
Definition Time : Type := Z.

(** [multipart.Object] *)
Module Object.
Record t : Type := mk {
  Key : string;
  IsPrefix : bool;
  StreamID : string;
  Created : Time;
  ContentLength : Z;
  Custom : gmap string string
}.
Definition zero : t := mk "" false "" 0 0 ∅.
End Object.

(** [multipart.PartInfo] *)
Module PartInfo.
Record t : Type := mk {
  PartNumber : Z;
  Size : Z;
  LastModified : Time
}.
End PartInfo.

(** The result of [multipart.ListObjectParts] *)
Module PartsList.
Record t : Type := mk {
  Items : list PartInfo.t;
  More : bool
}.
End PartsList.

(** [multipart.UploadIterator]: the items the network still has to yield, the
    error that ends the iteration if there is one, the current item and the
    error seen so far. *)
Module UploadIterator.
Record t : Type := mk {
  pending : list Object.t;
  failure : option error;
  current : Object.t;
  err : option error
}.

Definition Next (it : t) : bool * t :=
  match err it with
  | Some _ => (false, it)
  | None =>
      match pending it with
      | [] => (false, mk [] (failure it) (current it) (failure it))
      | object :: rest => (true, mk rest (failure it) object None)
      end
  end.

Definition Item (it : t) : Object.t := current it.
Definition Err (it : t) : option error := err it.

Definition start (items : list Object.t) (failure : option error) : t :=
  mk items failure Object.zero None.
End UploadIterator.

End Uplink.

(** ** Types of minio *)
Module Minio.
Import GoBytes Uplink.

Module MultipartInfo.
Record t : Type := mk {
  Bucket : string;
  Object : string;
  UploadID : string;
  Initiated : Time;
  UserDefined : gmap string string
}.
Definition zero : t := mk "" "" "" 0 ∅.
End MultipartInfo.

Module PartInfo.
Record t : Type := mk {
  PartNumber : Z;
  LastModified : Time;
  ETag : string;
  Size : Z;
  ActualSize : Z
}.
Definition zero : t := mk 0 0 "" 0 0.
End PartInfo.

Module ObjectInfo.
Record t : Type := mk {
  Bucket : string;
  Name : string;
  ModTime : Time;
  Size : Z;
  ETag : string;
  UserDefined : gmap string string
}.
Definition zero : t := mk "" "" 0 0 "" ∅.
End ObjectInfo.

Module ListPartsInfo.
Record t : Type := mk {
  Bucket : string;
  Object : string;
  UploadID : string;
  StorageClass : string;
  PartNumberMarker : Z;
  NextPartNumberMarker : Z;
  MaxParts : Z;
  IsTruncated : bool;
  Parts : list PartInfo.t
}.
Definition zero : t := mk "" "" "" "" 0 0 0 false [].
End ListPartsInfo.

Module ListMultipartsInfo.
Record t : Type := mk {
  KeyMarker : string;
  UploadIDMarker : string;
  NextKeyMarker : string;
  NextUploadIDMarker : string;
  MaxUploads : Z;
  IsTruncated : bool;
  Uploads : list MultipartInfo.t;
  Prefix : string;
  Delimiter : string;
  CommonPrefixes : list string
}.
Definition zero : t := mk "" "" "" "" 0 false [] "" "" [].
End ListMultipartsInfo.

(** [minio.PutObjReader]: the bytes the client supplied and how many of them
    have been read; the reader hashes what is read from it. *)
Module PutObjReader.
Record t : Type := mk {
  content : list byte;
  consumed : nat
}.

(** The reader after [n] more bytes were asked of it. *)
Definition read (n : nat) (r : t) : t :=
  mk (content r) (Nat.min (consumed r + n) (length (content r))).

(** The MD5 of the bytes read so far, in hex. *)
Definition MD5CurrentHexString (r : t) : string :=
  GoHex.EncodeToString (GoMD5.Sum (firstn (consumed r) (content r))).
End PutObjReader.

End Minio.

(** ** miniogw: the multipart methods of the gateway layer

    The storage network is a state machine over [World]; a method of the
    layer is a function of the state of the network and of the log of the
    calls made to it, and returns the pair of Go: the value and the error. *)
Module Gateway.
Import GoBytes GoStrings Errs Uplink Minio.

(** The calls that leave the gateway, with their arguments. *)
Inductive Call : Type :=
| CallOpenProject (accessGrant : string)
| CallClose
| CallPutObjectPart (bucket object uploadID : string) (partIndex : Z)
| CallCompleteMultipartUpload (bucket object uploadID : string)
    (metadata : gmap string string)
| CallListObjectParts (bucket object uploadID : string) (marker maxParts : Z)
| CallListPendingObjectStreams (bucket prefix : string)
| CallListMultipartUploads (bucket prefix cursor : string) (recursive : bool)
| CallCheckBucket (bucket : string).

(** What the network answers. [netPutObjectPart] is given the bytes the
    reader still holds and answers with the number of bytes it read. *)
Record Network (World : Type) : Type := mkNetwork {
  netOpenProject : string -> World -> World * option error;
  netClose : World -> World * option error;
  netPutObjectPart :
    string -> string -> string -> Z -> list byte ->
    World -> World * (nat * (Uplink.PartInfo.t + error));
  netCompleteMultipartUpload :
    string -> string -> string -> gmap string string ->
    World -> World * (Object.t + error);
  netListObjectParts :
    string -> string -> string -> Z -> Z ->
    World -> World * (PartsList.t + error);
  netListPendingObjectStreams :
    string -> string -> World -> World * UploadIterator.t;
  netListMultipartUploads :
    string -> string -> string -> bool -> World -> World * UploadIterator.t;
  netCheckBucket : string -> option error -> World -> World * option error
}.

Arguments netOpenProject {World}.
Arguments netClose {World}.
Arguments netPutObjectPart {World}.
Arguments netCompleteMultipartUpload {World}.
Arguments netListObjectParts {World}.
Arguments netListPendingObjectStreams {World}.
Arguments netListMultipartUploads {World}.
Arguments netCheckBucket {World}.

Record State (World : Type) : Type := mkState {
  world : World;
  calls : list Call
}.

Arguments mkState {World}.
Arguments world {World}.
Arguments calls {World}.

Definition M (World A : Type) : Type := State World -> State World * A.

Definition ret {World A : Type} (a : A) : M World A := fun s => (s, a).

Definition bind {World A B : Type} (m : M World A) (k : A -> M World B)
  : M World B :=
  fun s => let '(s', a) := m s in k a s'.

Notation "x <- m ; k" := (bind m (fun x => k))
  (at level 20, m at level 100, k at level 200, only parsing).
Notation "' p <- m ; k" := (bind m (fun x => let p := x in k))
  (at level 20, p pattern, m at level 100, k at level 200, only parsing).

(** A call: the network answers and the call is logged. *)
Definition call {World A : Type} (c : Call) (f : World -> World * A)
  : M World A :=
  fun s => let '(w, a) := f (world s) in (mkState w (calls s ++ [c]), a).

Section Layer.
Context {World : Type} (net : Network World).

(** [layer.openProjectMultipart(ctx, getAccessGrant(ctx))]; the access grant
    is the one the context carries. *)
Definition openProjectMultipart (accessGrant : string)
  : M World (option error) :=
  call (CallOpenProject accessGrant) (netOpenProject net accessGrant).

(** [project.Close()] *)
Definition projectClose : M World (option error) :=
  call CallClose (netClose net).

(** [multipart.PutObjectPart]: the network reads from [data]. *)
Definition multipartPutObjectPart (bucket object uploadID : string)
    (partIndex : Z) (data : PutObjReader.t)
  : M World (PutObjReader.t * (Uplink.PartInfo.t + error)) :=
  '(n, r) <- call (CallPutObjectPart bucket object uploadID partIndex)
               (netPutObjectPart net bucket object uploadID partIndex
                  (skipn (PutObjReader.consumed data)
                     (PutObjReader.content data))) ;
  ret (PutObjReader.read n data, r).

Definition GetMultipartInfo (bucket object uploadID : string)
  : M World (MultipartInfo.t * option error) :=
  let info := MultipartInfo.zero in
  let info := MultipartInfo.mk bucket (MultipartInfo.Object info)
                (MultipartInfo.UploadID info) (MultipartInfo.Initiated info)
                (MultipartInfo.UserDefined info) in
  let info := MultipartInfo.mk (MultipartInfo.Bucket info) object
                (MultipartInfo.UploadID info) (MultipartInfo.Initiated info)
                (MultipartInfo.UserDefined info) in
  let info := MultipartInfo.mk (MultipartInfo.Bucket info)
                (MultipartInfo.Object info) uploadID
                (MultipartInfo.Initiated info)
                (MultipartInfo.UserDefined info) in
  ret (info, None).

Definition PutObjectPart (accessGrant bucket object uploadID : string)
    (partID : Z) (data : PutObjReader.t)
  : M World (PartInfo.t * option error) :=
  oerr <- openProjectMultipart accessGrant ;
  match oerr with
  | Some err => ret (PartInfo.zero, Some err)
  | None =>
      '(info, err) <-
        ('(data, r) <- multipartPutObjectPart bucket object uploadID
                         (GoInt.sub partID 1) data ;
         match r with
         | inr err =>
             ret (PartInfo.zero,
                  Some (convertMultipartError err bucket object uploadID))
         | inl partInfo =>
             ret (PartInfo.mk partID 0
                    (PutObjReader.MD5CurrentHexString data)
                    (Uplink.PartInfo.Size partInfo) 0,
                  None)
         end) ;
      (* deferred: err = errs.Combine(err, project.Close()) *)
      cerr <- projectClose ;
      ret (info, Combine err cerr)
  end.

(** Modelled from the spec: [minioObjectInfo] is defined in gateway.go, which
    is not among the sources; the specification has [CompleteMultipartUpload]
    return the object metadata including the bucket, the key and the computed
    ETag. *)
Definition minioObjectInfo (bucket etag : string) (object : Object.t)
  : ObjectInfo.t :=
  ObjectInfo.mk bucket (Object.Key object) (Object.Created object)
    (Object.ContentLength object) etag (Object.Custom object).

(** [userDefined] is [opts.UserDefined]. *)
Definition CompleteMultipartUpload (accessGrant bucket object uploadID : string)
    (uploadedParts : list ETag.CompletePart)
    (userDefined : gmap string string)
  : M World (ObjectInfo.t * option error) :=
  oerr <- openProjectMultipart accessGrant ;
  match oerr with
  | Some err => ret (ObjectInfo.zero, Some err)
  | None =>
      '(objInfo, err) <-
        (match ETag.multipartUploadETag uploadedParts with
         | (_, Some err) =>
             ret (ObjectInfo.zero,
                  Some (convertMultipartError err bucket object uploadID))
         | (etag, None) =>
             (* uplink.CustomMetadata(opts.UserDefined).Clone() *)
             let metadata := userDefined in
             let metadata := <["s3:etag" := etag]> metadata in
             r <- call (CallCompleteMultipartUpload bucket object uploadID
                          metadata)
                    (netCompleteMultipartUpload net bucket object uploadID
                       metadata) ;
             match r with
             | inr err =>
                 ret (ObjectInfo.zero,
                      Some (convertMultipartError err bucket object uploadID))
             | inl obj => ret (minioObjectInfo bucket etag obj, None)
             end
         end) ;
      cerr <- projectClose ;
      ret (objInfo, Combine err cerr)
  end.

(** The loop over [list.Items]. *)
Definition appendPart (parts : list PartInfo.t) (item : Uplink.PartInfo.t)
  : list PartInfo.t :=
  parts ++ [PartInfo.mk (GoInt.add (Uplink.PartInfo.PartNumber item) 1)
              (Uplink.PartInfo.LastModified item) ""
              (Uplink.PartInfo.Size item) (Uplink.PartInfo.Size item)].

Definition lessPartNumber (a b : PartInfo.t) : bool :=
  PartInfo.PartNumber a <? PartInfo.PartNumber b.

Definition ListObjectParts (accessGrant bucket object uploadID : string)
    (partNumberMarker maxParts : Z)
  : M World (ListPartsInfo.t * option error) :=
  oerr <- openProjectMultipart accessGrant ;
  match oerr with
  | Some err => ret (ListPartsInfo.zero, Some err)
  | None =>
      '(result, err) <-
        (r <- call (CallListObjectParts bucket object uploadID
                      (GoInt.sub partNumberMarker 1) maxParts)
                (netListObjectParts net bucket object uploadID
                   (GoInt.sub partNumberMarker 1) maxParts) ;
         match r with
         | inr err =>
             ret (ListPartsInfo.zero,
                  Some (convertMultipartError err bucket object uploadID))
         | inl list =>
             let parts := fold_left appendPart (PartsList.Items list) [] in
             let parts := GoSort.Slice lessPartNumber parts in
             ret (ListPartsInfo.mk bucket object uploadID ""
                    partNumberMarker partNumberMarker maxParts
                    (PartsList.More list) parts,
                  None)
         end) ;
      cerr <- projectClose ;
      ret (result, Combine err cerr)
  end.

Definition minioMultipartInfo (bucket : string) (object : option Object.t)
  : MultipartInfo.t :=
  let object := match object with None => Object.zero | Some o => o end in
  MultipartInfo.mk bucket (Object.Key object) (Object.StreamID object)
    (Object.Created object) (Object.Custom object).

(** The variables of the listing loop. *)
Record Listing : Type := mkListing {
  list_ : UploadIterator.t;
  limit : Z;
  startAfter : string;
  uploads : list MultipartInfo.t;
  prefixes : list string
}.

(** [for (limit > 0 || maxUploads == 0) && list.Next() { ... }], with the
    number of iterations bounded by [fuel]. *)
Fixpoint listLoop (fuel : nat) (bucket : string) (maxUploads : Z) (l : Listing)
  : Listing :=
  match fuel with
  | O => l
  | S fuel' =>
      if (limit l >? 0) || (maxUploads =? 0) then
        let '(ok, it) := UploadIterator.Next (list_ l) in
        if ok then
          let limit := GoInt.sub (limit l) 1 in
          let object := UploadIterator.Item it in
          if Object.IsPrefix object then
            listLoop fuel' bucket maxUploads
              (mkListing it limit (startAfter l) (uploads l)
                 (prefixes l ++ [Object.Key object]))
          else
            listLoop fuel' bucket maxUploads
              (mkListing it limit (Object.Key object)
                 (uploads l ++ [minioMultipartInfo bucket (Some object)])
                 (prefixes l))
        else mkListing it (limit l) (startAfter l) (uploads l) (prefixes l)
      else l
  end.

(** The page: the loop, the probe of one further item and the result. The
    iterator is returned with the result, to tell how far it was moved; the
    loop needs no more iterations than the iterator has items, plus one. *)
Definition listPage (bucket prefix keyMarker uploadIDMarker delimiter : string)
    (maxUploads : Z) (list : UploadIterator.t)
  : UploadIterator.t * (ListMultipartsInfo.t * option error) :=
  let l := listLoop (S (length (UploadIterator.pending list))) bucket
             maxUploads (mkListing list maxUploads keyMarker [] []) in
  match UploadIterator.Err (list_ l) with
  | Some e =>
      (list_ l,
       (ListMultipartsInfo.zero, Some (convertMultipartError e bucket "" "")))
  | None =>
      let '(more, it) := UploadIterator.Next (list_ l) in
      match UploadIterator.Err it with
      | Some e =>
          (it, (ListMultipartsInfo.zero,
                Some (convertMultipartError e bucket "" "")))
      | None =>
          (it,
           (ListMultipartsInfo.mk keyMarker uploadIDMarker
              (if more then startAfter l else "") "" maxUploads more
              (uploads l) prefix delimiter (prefixes l),
            None))
      end
  end.

(** [checkBucketError] is defined in gateway.go, which is not among the
    sources: what it makes of the error is left to the network, and its
    invocation is logged. *)
Definition checkBucketError (bucket : string) (err : option error)
  : M World (option error) :=
  call (CallCheckBucket bucket) (netCheckBucket net bucket err).

Definition ListMultipartUploads
    (accessGrant bucket prefix keyMarker uploadIDMarker delimiter : string)
    (maxUploads : Z)
  : M World (ListMultipartsInfo.t * option error) :=
  oerr <- openProjectMultipart accessGrant ;
  match oerr with
  | Some err => ret (ListMultipartsInfo.zero, Some err)
  | None =>
      '(result, err) <-
        (if String.eqb bucket "" then
           ret (ListMultipartsInfo.zero, Some (BucketNameInvalid ""))
         else if negb (String.eqb delimiter "")
                 && negb (String.eqb delimiter "/") then
           ret (ListMultipartsInfo.zero, Some (UnsupportedDelimiter delimiter))
         else
           '(result, err) <-
             (let recursive := String.eqb delimiter "" in
              list <-
                (if negb (String.eqb prefix "") && negb (HasSuffix prefix "/")
                 then
                   call (CallListPendingObjectStreams bucket prefix)
                     (netListPendingObjectStreams net bucket prefix)
                 else
                   call (CallListMultipartUploads bucket prefix keyMarker
                           recursive)
                     (netListMultipartUploads net bucket prefix keyMarker
                        recursive)) ;
              ret (snd (listPage bucket prefix keyMarker uploadIDMarker
                          delimiter maxUploads list))) ;
           (* deferred: err = checkBucketError(ctx, project, bucket, "", err) *)
           err <- checkBucketError bucket err ;
           ret (result, err)) ;
      (* deferred: err = errs.Combine(err, project.Close()) *)
      cerr <- projectClose ;
      ret (result, Combine err cerr)
  end.

End Layer.
End Gateway.

(** ** The page of a listing as the specification describes it *)
Module ListingSpec.
Import Uplink.

(** A part of the network in the external numbering, from 1, with an empty
    ETag. *)
Definition external (item : Uplink.PartInfo.t) : Minio.PartInfo.t :=
  Minio.PartInfo.mk (GoInt.add (Uplink.PartInfo.PartNumber item) 1)
    (Uplink.PartInfo.LastModified item) ""
    (Uplink.PartInfo.Size item) (Uplink.PartInfo.Size item).

Definition ascending (a b : Minio.PartInfo.t) : Prop :=
  Minio.PartInfo.PartNumber a <= Minio.PartInfo.PartNumber b.

(** The items a page iterates when a common prefix consumes no quota: with
    [unbounded] every item, and otherwise items until [quota] uploads were
    seen. *)
Fixpoint page_prefixes_free (unbounded : bool) (quota : nat)
    (items : list Object.t) : list Object.t :=
  match items with
  | [] => []
  | object :: rest =>
      if unbounded then object :: page_prefixes_free unbounded quota rest
      else
        match quota with
        | O => []
        | S quota' =>
            if Object.IsPrefix object
            then object :: page_prefixes_free unbounded quota rest
            else object :: page_prefixes_free unbounded quota' rest
        end
  end.

(** The number of iterations left to a loop whose counter is [limit], over
    an iterator that has [len] items, when every item consumes quota. *)
Definition iterations (maxUploads limit : Z) (len : nat) : nat :=
  if maxUploads =? 0 then len else Nat.min (Z.to_nat limit) len.

(** The number of items a page iterates when every item consumes quota. *)
Definition page_size (maxUploads : Z) (items : list Object.t) : nat :=
  if maxUploads =? 0 then length items
  else Nat.min (Z.to_nat maxUploads) (length items).

(** The key of the last upload of a page, or the marker the page began at. *)
Definition last_upload_key (keyMarker : string) (page : list Object.t)
  : string :=
  fold_left
    (fun key object => if Object.IsPrefix object then key else Object.Key object)
    page keyMarker.

End ListingSpec.

(** ** A network with fixed answers, to run the layer on *)
Module FixedNet.
Import GoBytes Errs Uplink Minio Gateway.

Record Answers : Type := mkAnswers {
  openErr : option error;
  closeErr : option error;
  putAnswer : Uplink.PartInfo.t + error;
  completeAnswer : Object.t + error;
  partsAnswer : PartsList.t + error;
  listItems : list Object.t;
  listFailure : option error
}.

(** The world counts the calls answered. *)
Definition net (a : Answers) : Network nat :=
  {| netOpenProject := fun _ w => (S w, openErr a);
     netClose := fun w => (S w, closeErr a);
     netPutObjectPart := fun _ _ _ _ data w =>
       (S w, (length data, putAnswer a));
     netCompleteMultipartUpload := fun _ _ _ _ w => (S w, completeAnswer a);
     netListObjectParts := fun _ _ _ _ _ w => (S w, partsAnswer a);
     netListPendingObjectStreams := fun _ _ w =>
       (S w, UploadIterator.start (listItems a) (listFailure a));
     netListMultipartUploads := fun _ _ _ _ w =>
       (S w, UploadIterator.start (listItems a) (listFailure a));
     netCheckBucket := fun _ err w => (S w, err) |}.

Definition stored : Object.t := Object.mk "o" false "U" 12 3 ∅.

Definition prefix_a : Object.t := Object.mk "a/" true "" 0 0 ∅.
Definition upload_b : Object.t := Object.mk "b" false "U1" 5 0 ∅.
Definition upload_c : Object.t := Object.mk "c" false "U2" 6 0 ∅.

Definition ok : Answers :=
  {| openErr := None;
     closeErr := None;
     putAnswer := inl (Uplink.PartInfo.mk 0 3 7);
     completeAnswer := inl stored;
     partsAnswer :=
       inl (PartsList.mk
              [Uplink.PartInfo.mk 2 30 7; Uplink.PartInfo.mk 0 10 5;
               Uplink.PartInfo.mk 1 20 6] true);
     listItems := [prefix_a; upload_b; upload_c];
     listFailure := None |}.

(** The upload ID is not that of a live stream. *)
Definition gone : Answers :=
  {| openErr := None;
     closeErr := None;
     putAnswer := inr (ErrWrap "stream" ErrStreamIDInvalid);
     completeAnswer := inr ErrStreamIDInvalid;
     partsAnswer := inr ErrStreamIDInvalid;
     listItems := [];
     listFailure := None |}.

(** The project cannot be opened. *)
Definition closed : Answers :=
  {| openErr := Some (ErrOther "Access key is empty");
     closeErr := None;
     putAnswer := inr (ErrOther "");
     completeAnswer := inr (ErrOther "");
     partsAnswer := inr (ErrOther "");
     listItems := [];
     listFailure := None |}.

Definition init : State nat := mkState 0%nat [].

End FixedNet.

(** ** auth: the database over a key/value store *)
Module AuthDB.
Import GoBytes Auth.

(** [auth.EncryptionKey], a [[32]byte]. *)
Definition EncryptionKey : Type := list byte.

(** The interface [auth.KV] that the database wraps, with the methods that
    the in-memory store implements; a method is a function of the state of
    the store. *)
Class KVStore (S : Type) : Type := mkKVStore {
  kvPut : KeyHash -> option Record -> S -> S * option Auth.error;
  kvGet : KeyHash -> S -> S * (option Record * option Auth.error);
  kvDelete : KeyHash -> S -> S * option Auth.error;
  kvInvalidate : KeyHash -> string -> S -> S * option Auth.error;
  kvPing : S -> S * option Auth.error
}.

#[global] Instance memauthKV : KVStore Memauth.KV :=
  {| kvPut := Memauth.Put;
     kvGet := Memauth.Get;
     kvDelete := Memauth.Delete;
     kvInvalidate := Memauth.Invalidate;
     kvPing := Memauth.Ping |}.

(** The errors of the database. *)
Inductive error : Type :=
| Wrap (err : Auth.error)
    (** [errs.Wrap] of an error of the store *)
| WrapAccess (msg : string)
    (** [errs.Wrap] of an error of [Serialize] or of [ParseAccess] *)
| NotFoundNew (msg : string).
    (** [NotFound.New("key hash: %x", hash)] *)

Section Database.
Context {S : Type} `{KVStore S} {Access : Type}.

(** [blake3.Sum256], behind [EncryptionKey.Hash]. *)
Variable Hash : EncryptionKey -> KeyHash.

(** [access.Serialize] and [uplink.ParseAccess]; an error of
    uplink is its message. *)
Variable Serialize : Access -> string * option string.
Variable ParseAccess : string -> option Access * option string.

(** The database is its store. *)
Definition Put (key : EncryptionKey) (access : Access) (db : S)
  : S * option error :=
  let '(serialized, err) := Serialize access in
  match err with
  | Some e => (db, Some (WrapAccess e))
  | None =>
      let record :=
        mkRecord "TODO" (bytes_of_string "TODO") (bytes_of_string "TODO")
          (bytes_of_string serialized) in
      match kvPut (Hash key) (Some record) db with
      | (db', Some e) => (db', Some (Wrap e))
      | (db', None) => (db', None)
      end
  end.

(** The result is the triple of Go: the access, the secret key and the
    error. *)
Definition Get (key : EncryptionKey) (db : S)
  : S * (option Access * list byte * option error) :=
  match kvGet (Hash key) db with
  | (db', (_, Some e)) => (db', (None, [], Some (Wrap e)))
  | (db', (None, None)) =>
      (db',
       (None, [],
        Some (NotFoundNew ("key hash: " +:+ GoHex.EncodeToString (Hash key)))))
  | (db', (Some record, None)) =>
      let secretKey := EncryptedSecretKey record in
      let serialized := string_of_list_byte (EncryptedAccessGrant record) in
      match ParseAccess serialized with
      | (_, Some e) => (db', (None, [], Some (WrapAccess e)))
      | (access, None) => (db', (access, secretKey, None))
      end
  end.

End Database.

(** A database to run: accesses are their serialized form and the hash of a
    key is its MD5 digest twice over. *)
Module Sample.

Definition Hash (key : EncryptionKey) : KeyHash :=
  GoMD5.Sum key ++ GoMD5.Sum key.

Definition Serialize (access : string) : string * option string :=
  (access, None).

Definition ParseAccess (serialized : string) : option string * option string :=
  (Some serialized, None).

Definition key : EncryptionKey := repeat x07 32.

End Sample.

End AuthDB.

(** ** Shapes of tags, to state what the aggregate ETag looks like *)
Module TagShape.
Import GoStrings.

(** A lower-case hexadecimal digit. *)
Definition is_hex_lower (c : ascii) : bool :=
  let n := nat_of_ascii c in
  (((48 <=? n) && (n <=? 57)) || ((97 <=? n) && (n <=? 102)))%nat.

Fixpoint all_chars (P : ascii -> bool) (s : string) : bool :=
  match s with
  | EmptyString => true
  | String c rest => P c && all_chars P rest
  end.

(** Neither a quote nor a dash. *)
Definition plain (c : ascii) : bool :=
  negb (Ascii.eqb c dquote) && negb (Ascii.eqb c dash).

Definition is_quote (c : ascii) : bool := Ascii.eqb c dquote.

End TagShape.

(** ** The shape of the log of a method of the layer *)
Module GatewayLog.
Import Gateway.

(** The calls that open or close the project. *)
Definition is_lifecycle (c : Call) : bool :=
  match c with
  | CallOpenProject _ | CallClose => true
  | _ => false
  end.

(** The log of a method that was given [accessGrant], from [before] to
    [after]: when the project was opened, the opening, calls that neither
    open nor close, and the closing; when the opening failed, the opening
    alone. *)
Definition scoped (opened : bool) (accessGrant : string)
    (before after : list Call) : Prop :=
  if opened then
    exists mid : list Call,
      after = before ++ CallOpenProject accessGrant :: mid ++ [CallClose]
      /\ forallb (fun c => negb (is_lifecycle c)) mid = true
  else after = before ++ [CallOpenProject accessGrant].

(** Whether an answer to the opening of the project is a success. *)
Definition opened {World : Type} (answer : World * option Errs.error) : bool :=
  match snd answer with
  | None => true
  | Some _ => false
  end.

End GatewayLog.

(** ** miniogw: the methods that begin and abort an upload

    These methods change or pass on the context of the request; the context
    is modelled as far as the layer reads it: the access grant it carries and
    whether uplink deletes the object when the request is cancelled. *)
Module Uploads.
Import Errs.

Record Context : Type := mkContext {
  accessGrant : string;
  deleteOnCancel : bool
}.

(** [streams.DisableDeleteOnCancel] *)
Definition DisableDeleteOnCancel (ctx : Context) : Context :=
  mkContext (accessGrant ctx) false.

Definition getAccessGrant (ctx : Context) : string := accessGrant ctx.

Inductive UploadCall : Type :=
| OpenProjectCall (ctx : Context) (grant : string)
| CloseCall
| NewMultipartUploadCall (ctx : Context) (bucket object : string)
| AbortMultipartUploadCall (ctx : Context) (bucket object uploadID : string).

(** What the network answers; [upNewMultipartUpload] answers with the
    stream ID of the upload. *)
Record UploadNetwork (World : Type) : Type := mkUploadNetwork {
  upOpenProject : Context -> string -> World -> World * option error;
  upClose : World -> World * option error;
  upNewMultipartUpload :
    Context -> string -> string -> World -> World * (string + error);
  upAbortMultipartUpload :
    Context -> string -> string -> string -> World -> World * option error
}.

Arguments upOpenProject {World}.
Arguments upClose {World}.
Arguments upNewMultipartUpload {World}.
Arguments upAbortMultipartUpload {World}.

Record UploadState (World : Type) : Type := mkUploadState {
  uworld : World;
  ucalls : list UploadCall
}.

Arguments mkUploadState {World}.
Arguments uworld {World}.
Arguments ucalls {World}.

Section Layer.
Context {World : Type} (net : UploadNetwork World).

Definition callNetwork {A : Type} (c : UploadCall) (f : World -> World * A)
    (s : UploadState World) : UploadState World * A :=
  let '(w, a) := f (uworld s) in (mkUploadState w (ucalls s ++ [c]), a).

Definition NewMultipartUpload (ctx : Context) (bucket object : string)
    (s : UploadState World) : UploadState World * (string * option error) :=
  let ctx := DisableDeleteOnCancel ctx in
  let '(s, oerr) :=
    callNetwork (OpenProjectCall ctx (getAccessGrant ctx))
      (upOpenProject net ctx (getAccessGrant ctx)) s in
  match oerr with
  | Some err => (s, (""%string, Some err))
  | None =>
      let '(s, r) :=
        callNetwork (NewMultipartUploadCall ctx bucket object)
          (upNewMultipartUpload net ctx bucket object) s in
      let '(uploadID, err) :=
        match r with
        | inr err =>
            (""%string, Some (convertMultipartError err bucket object ""))
        | inl streamID => (streamID, None)
        end in
      (* deferred: err = errs.Combine(err, project.Close()) *)
      let '(s, cerr) := callNetwork CloseCall (upClose net) s in
      (s, (uploadID, Combine err cerr))
  end.

Definition AbortMultipartUpload (ctx : Context)
    (bucket object uploadID : string) (s : UploadState World)
  : UploadState World * option error :=
  let '(s, oerr) :=
    callNetwork (OpenProjectCall ctx (getAccessGrant ctx))
      (upOpenProject net ctx (getAccessGrant ctx)) s in
  match oerr with
  | Some err => (s, Some err)
  | None =>
      let '(s, aerr) :=
        callNetwork (AbortMultipartUploadCall ctx bucket object uploadID)
          (upAbortMultipartUpload net ctx bucket object uploadID) s in
      let err :=
        match aerr with
        | Some err => Some (convertMultipartError err bucket object uploadID)
        | None => None
        end in
      (* deferred: err = errs.Combine(err, project.Close()) *)
      let '(s, cerr) := callNetwork CloseCall (upClose net) s in
      (s, Combine err cerr)
  end.

End Layer.

(** A network that keeps the pending uploads it was asked to begin, names
    them by their rank and refuses to abort an upload it does not hold. *)
Module Pending.

Definition streamID (n : nat) : string :=
  "stream-" +:+ GoStrings.Itoa (Z.of_nat n).

Definition net : UploadNetwork (list string) :=
  {| upOpenProject := fun _ grant w =>
       (w, if String.eqb grant "" then Some (ErrOther "Access key is empty")
           else None);
     upClose := fun w => (w, None);
     upNewMultipartUpload := fun _ _ _ w =>
       (w ++ [streamID (length w)], inl (streamID (length w)));
     upAbortMultipartUpload := fun _ _ _ uploadID w =>
       if existsb (String.eqb uploadID) w
       then (List.filter (fun u => negb (String.eqb uploadID u)) w, None)
       else (w, Some (ErrWrap "abort" ErrStreamIDInvalid)) |}.

Definition init : UploadState (list string) := mkUploadState [] [].

Definition ctx : Context := mkContext "grant" true.

End Pending.

End Uploads.

(** Networks that do not hold the upload and whose project fails to open,
    or to close. *)
Module Refusals.
Import Errs Gateway FixedNet.



End Refusals.

(** * Properties *)

Module GoIntFacts.
Import GoInt.
Lemma wrap_in_range z : in_range (wrap z).
Proof.
  unfold in_range, wrap, minInt, maxInt.
  pose proof (Z.mod_pos_bound (z + 2 ^ 63) (2 ^ 64) ltac:(lia)). lia.
Qed.

Lemma wrap_small z : in_range z -> wrap z = z.
Proof.
  unfold in_range, wrap, minInt, maxInt. intros Hz.
  rewrite Z.mod_small; lia.
Qed.

Lemma sub_exact a b : in_range (a - b) -> sub a b = a - b.
Proof. apply wrap_small. Qed.

Lemma add_exact a b : in_range (a + b) -> add a b = a + b.
Proof. apply wrap_small. Qed.

End GoIntFacts.

Module GoBytesFacts.
Import GoBytes.
Lemma Z_of_byte_range b : 0 <= Z_of_byte b < 256.
Proof. destruct b; vm_compute; split; congruence. Qed.

Lemma byte_of_Z_of_byte b : byte_of_Z (Z_of_byte b) = b.
Proof. destruct b; reflexivity. Qed.

End GoBytesFacts.

Module GoMD5Facts.
Import GoMD5.
Lemma le_bytes_length n z : length (le_bytes n z) = n.
Proof. revert z; induction n; intros; simpl; auto. Qed.

Lemma Sum_length data : length (Sum data) = 16%nat.
Proof.
  unfold Sum.
  destruct (blocks _ _ _) as [[[A B] C] D].
  rewrite !length_app, !le_bytes_length. reflexivity.
Qed.

End GoMD5Facts.

Module Vectors.
Import GoBytes GoMD5 GoHex.

Example md5_empty :
  EncodeToString (Sum []) = "d41d8cd98f00b204e9800998ecf8427e"%string.
Proof. vm_compute. reflexivity. Qed.

Example md5_abc :
  EncodeToString (Sum (bytes_of_string "abc"))
  = "900150983cd24fb0d6963f7d28e17f72"%string.
Proof. vm_compute. reflexivity. Qed.

Example md5_two_blocks :
  EncodeToString (Sum (repeat x61 70))
  = "0f5c6c4e740bfcc08c3c26ccb2673d46"%string.
Proof. vm_compute. reflexivity. Qed.

End Vectors.

Module GoHexFacts.
Import GoBytes GoHex.

Lemma decode_encode_byte b rest :
  DecodeString
    (String (hexdigit (Z.shiftr (Z_of_byte b) 4))
       (String (hexdigit (Z.land (Z_of_byte b) 15)) rest))
  = match DecodeString rest with
    | Some bs => Some (b :: bs)
    | None => None
    end.
Proof. destruct b; reflexivity. Qed.

Lemma DecodeString_EncodeToString l :
  DecodeString (EncodeToString l) = Some l.
Proof.
  induction l as [|b l IH]; [reflexivity|].
  cbn [EncodeToString]. rewrite decode_encode_byte, IH. reflexivity.
Qed.

Lemma EncodeToString_inj l1 l2 :
  EncodeToString l1 = EncodeToString l2 -> l1 = l2.
Proof.
  intros H. apply (f_equal DecodeString) in H.
  rewrite !DecodeString_EncodeToString in H. congruence.
Qed.

Lemma EncodeToString_length l :
  String.length (EncodeToString l) = (2 * length l)%nat.
Proof. induction l as [|b l IH]; simpl; [reflexivity|]. rewrite IH. lia. Qed.

End GoHexFacts.

Module GoStringsFacts.
Import GoStrings.

Lemma IndexByte_ge s c : -1 <= IndexByte s c.
Proof.
  induction s as [|a s IH]; simpl; [lia|].
  destruct (Ascii.eqb a c); [lia|].
  destruct (Z.ltb_spec (IndexByte s c) 0); lia.
Qed.

Lemma append_assoc (a b c : string) : (a +:+ b) +:+ c = a +:+ (b +:+ c).
Proof.
  induction a as [|x a IH]; [reflexivity|].
  change (String x ((a +:+ b) +:+ c) = String x (a +:+ (b +:+ c))).
  now rewrite IH.
Qed.

Lemma append_inj_length (a1 a2 b1 b2 : string) :
  String.length a1 = String.length a2 ->
  a1 +:+ b1 = a2 +:+ b2 -> a1 = a2 /\ b1 = b2.
Proof.
  revert a2. induction a1 as [|x a1 IH]; intros [|y a2] Hlen Heq;
    try discriminate Hlen; [auto|].
  change (String x (a1 +:+ b1) = String y (a2 +:+ b2)) in Heq.
  injection Heq as -> Heq. injection Hlen as Hlen.
  destruct (IH a2 Hlen Heq) as [-> ->]; auto.
Qed.

(** Removing trailing bytes, one element at a time from the front. *)
Lemma dropByte_snoc c l a :
  dropByte c (l ++ [a])
  = match dropByte c l with
    | [] => dropByte c [a]
    | x :: r => (x :: r) ++ [a]
    end.
Proof.
  induction l as [|b l IH]; [reflexivity|].
  cbn [app dropByte]. destruct (Ascii.eqb b c); [exact IH|reflexivity].
Qed.

Lemma trimRight_cons c a l :
  rev (dropByte c (rev (a :: l)))
  = match rev (dropByte c (rev l)) with
    | [] => dropByte c [a]
    | x :: r => a :: x :: r
    end.
Proof.
  cbn [rev]. rewrite dropByte_snoc.
  destruct (dropByte c (rev l)) as [|x r] eqn:E.
  - cbn [rev]. simpl. destruct (Ascii.eqb a c); reflexivity.
  - rewrite rev_app_distr. cbn [rev app].
    destruct (rev r ++ [x]) as [|y r'] eqn:E'; [|reflexivity].
    destruct (rev r); discriminate.
Qed.

(** Trimming on the left and on the right commute. *)
Lemma dropByte_trimRight c l :
  dropByte c (rev (dropByte c (rev l)))
  = rev (dropByte c (rev (dropByte c l))).
Proof.
  induction l as [|a l IH]; [reflexivity|].
  rewrite trimRight_cons. cbn [dropByte].
  destruct (Ascii.eqb a c) eqn:E.
  - rewrite <- IH.
    destruct (rev (dropByte c (rev l))) as [|x r]; cbn [dropByte]; rewrite ?E;
      reflexivity.
  - rewrite trimRight_cons.
    destruct (rev (dropByte c (rev l))) as [|x r]; cbn [dropByte]; rewrite ?E;
      reflexivity.
Qed.

Lemma list_ascii_of_string_of_list l :
  list_ascii_of_string (string_of_list_ascii l) = l.
Proof. apply list_ascii_of_string_of_list_ascii. Qed.

End GoStringsFacts.

(** ** The aggregate ETag *)
Module ETagFacts.
Import GoBytes GoStrings ETag ETagSpec ETagSamples.
Import GoStringsFacts GoHexFacts.

Lemma Trim_dquote s : Trim s dquote = trim_quotes s.
Proof.
  unfold Trim, trimLeftByte, trimRightByte, trim_quotes.
  rewrite list_ascii_of_string_of_list, dropByte_trimRight. reflexivity.
Qed.

Lemma slice_at_dash s :
  (if IndexByte s dash >=? 0 then slice_to s (IndexByte s dash) else s)
  = before_dash s.
Proof.
  induction s as [|a s IH]; [reflexivity|].
  cbn [IndexByte before_dash].
  destruct (Ascii.eqb a dash); [reflexivity|].
  pose proof (IndexByte_ge s dash) as Hge.
  destruct (Z.ltb_spec (IndexByte s dash) 0) as [Hlt|Hnn].
  - replace (IndexByte s dash >=? 0) with false in IH by (symmetry; lia).
    cbn. now rewrite <- IH.
  - replace (IndexByte s dash >=? 0) with true in IH by (symmetry; lia).
    replace (IndexByte s dash + 1 >=? 0) with true by (symmetry; lia).
    unfold slice_to in *.
    replace (Z.to_nat (IndexByte s dash + 1))
      with (S (Z.to_nat (IndexByte s dash))) by lia.
    cbn [substring]. now rewrite IH.
Qed.

Lemma canonicalEtag_before_dash e :
  canonicalEtag e = before_dash (trim_quotes e).
Proof.
  unfold canonicalEtag. cbv zeta. rewrite Trim_dquote. apply slice_at_dash.
Qed.

Lemma appendHash_contribution hashes part :
  appendHash hashes part = hashes ++ contribution (ETag part).
Proof.
  unfold appendHash, contribution, contribution_with.
  rewrite canonicalEtag_before_dash.
  destruct (GoHex.DecodeString _); reflexivity.
Qed.

Lemma fold_appendHash parts hashes :
  fold_left appendHash parts hashes
  = hashes ++ concat (map contribution (map ETag parts)).
Proof.
  revert hashes. induction parts as [|p parts IH]; intros hashes.
  - cbn. now rewrite app_nil_r.
  - cbn [fold_left map concat]. rewrite IH, appendHash_contribution.
    now rewrite <- app_assoc.
Qed.

Lemma multipartUploadETag_aggregate parts :
  multipartUploadETag parts = (aggregate contribution (map ETag parts), None).
Proof.
  unfold multipartUploadETag, aggregate. cbv zeta.
  rewrite fold_appendHash, append_assoc, length_map. reflexivity.
Qed.

Example canonicalEtag_plain :
  canonicalEtag "900150983cd24fb0d6963f7d28e17f72-3"
  = "900150983cd24fb0d6963f7d28e17f72"%string.
Proof. reflexivity. Qed.

Example canonicalEtag_quoted :
  canonicalEtag (String dquote ("0f5c" +:+ String dquote EmptyString))
  = "0f5c"%string.
Proof. reflexivity. Qed.

Example Itoa_12 : Itoa 12 = "12"%string.
Proof. reflexivity. Qed.

Example Itoa_0 : Itoa 0 = "0"%string.
Proof. reflexivity. Qed.

Lemma before_dash_strip_count_suffix s :
  ETagShape.count_after_first_dash s = true ->
  before_dash s = strip_count_suffix s.
Proof.
  induction s as [|c s IH]; [reflexivity|].
  cbn [ETagShape.count_after_first_dash before_dash strip_count_suffix].
  destruct (Ascii.eqb c dash); cbn [andb].
  - intros ->. reflexivity.
  - intros H. now rewrite IH.
Qed.

Lemma contribution_conventional e :
  ETagShape.conventional e = true -> contribution e = contribution_suffix e.
Proof.
  unfold ETagShape.conventional, contribution, contribution_suffix,
    contribution_with.
  intros H. now rewrite (before_dash_strip_count_suffix _ H).
Qed.

Lemma aggregate_inj c1 c2 (l1 l2 : list string) :
  length l1 = length l2 ->
  aggregate c1 l1 = aggregate c2 l2 ->
  GoMD5.Sum (concat (map c1 l1)) = GoMD5.Sum (concat (map c2 l2)).
Proof.
  unfold aggregate. intros Hlen H.
  apply append_inj_length in H as [H _].
  - now apply EncodeToString_inj.
  - now rewrite !EncodeToString_length, !GoMD5Facts.Sum_length.
Qed.

(** C1 (as amended). The aggregate ETag is the hex MD5 digest of the
    concatenated contributions, in the given order, followed by a dash and the
    number of parts, and the error is nil. A contribution is the ETag with its
    surrounding quotes trimmed, cut at its FIRST dash and hex-decoded, or the
    raw bytes of the ETag when that is not hex. On ETags of the conventional
    shape, where what follows the first dash is a count, this is the removal
    of a trailing [-<count>] suffix that the specification describes. *)
Theorem multipartUploadETag_cuts_at_first_dash (parts : list CompletePart) :
  multipartUploadETag parts = (aggregate contribution (map ETag parts), None)
  /\ (Forall (fun p => ETagShape.conventional (ETag p) = true) parts ->
      fst (multipartUploadETag parts) = ComputeAggregateETag (map ETag parts)).
Proof.
  split; [apply multipartUploadETag_aggregate|].
  intros Hconv. rewrite multipartUploadETag_aggregate. cbn [fst].
  assert (Hmap : map contribution (map ETag parts)
                 = map contribution_suffix (map ETag parts)).
  { induction Hconv as [|p ps Hp _ IH]; [reflexivity|].
    cbn [map]. now rewrite IH, (contribution_conventional _ Hp). }
  unfold ComputeAggregateETag, aggregate. now rewrite Hmap.
Qed.

Lemma multipartUploadETag_cuts_at_first_dash_witness :
  Forall (fun p => ETagShape.conventional (ETag p) = true) two_parts
  /\ fst (multipartUploadETag two_parts)
     = ComputeAggregateETag (map ETag two_parts).
Proof.
  assert (H : Forall (fun p => ETagShape.conventional (ETag p) = true)
                two_parts)
    by (repeat constructor).
  split; [exact H|].
  exact (proj2 (multipartUploadETag_cuts_at_first_dash two_parts) H).
Defined.

(** C1, counterexample. For the ETag [ab-zz] the code cuts at the dash and
    hashes the single byte 0xab, whereas removing a trailing [-<count>]
    leaves [ab-zz], which is not hex, so that the raw bytes are hashed. *)
Lemma multipartUploadETag_not_count_suffix :
  fst (multipartUploadETag [mkCompletePart 1 "ab-zz"])
    = "2408ad11f9eb830da749e2a36a29eff7-1"%string
  /\ ComputeAggregateETag ["ab-zz"%string]
    = "110ba9c03669b8f55d8c7a4000066384-1"%string
  /\ fst (multipartUploadETag [mkCompletePart 1 "ab-zz"])
     <> ComputeAggregateETag (map ETag [mkCompletePart 1 "ab-zz"]).
Proof.
  split; [vm_compute; reflexivity|].
  split; [vm_compute; reflexivity|].
  vm_compute. discriminate.
Qed.

(** C2 (as amended). The aggregate ETag depends on the ordered part ETags
    only: lists of parts with the same ETags in the same order give the same
    string. It depends on the order through the concatenation of the
    contributions: the aggregates of [p1, p2] and [p2, p1] differ whenever
    the MD5 digests of the two concatenations differ, and they are equal
    whenever the two concatenations are. *)
Theorem multipartUploadETag_order (p1 p2 : CompletePart)
    (parts parts' : list CompletePart) :
  (map ETag parts = map ETag parts' ->
   multipartUploadETag parts = multipartUploadETag parts')
  /\ (GoMD5.Sum (contribution (ETag p1) ++ contribution (ETag p2))
      <> GoMD5.Sum (contribution (ETag p2) ++ contribution (ETag p1)) ->
      multipartUploadETag [p1; p2] <> multipartUploadETag [p2; p1])
  /\ (contribution (ETag p1) ++ contribution (ETag p2)
      = contribution (ETag p2) ++ contribution (ETag p1) ->
      multipartUploadETag [p1; p2] = multipartUploadETag [p2; p1]).
Proof.
  rewrite !multipartUploadETag_aggregate. repeat split.
  - now intros ->.
  - intros Hsum Heq. apply Hsum.
    injection Heq as Heq. apply aggregate_inj in Heq; [|reflexivity].
    cbn [map concat] in Heq. now rewrite !app_nil_r in Heq.
  - intros Hcat. unfold aggregate. cbn [map concat length].
    rewrite !app_nil_r. now rewrite Hcat.
Qed.

Lemma multipartUploadETag_order_witness :
  multipartUploadETag [part_aa; part_bb]
    = multipartUploadETag [mkCompletePart 7 "aa"; mkCompletePart 9 "bb"]
  /\ multipartUploadETag [part_aa; part_bb]
     <> multipartUploadETag [part_bb; part_aa]
  /\ multipartUploadETag [part_ab; part_ab1]
     = multipartUploadETag [part_ab1; part_ab].
Proof.
  split; [|split].
  - apply (multipartUploadETag_order part_aa part_bb [part_aa; part_bb]
             [mkCompletePart 7 "aa"; mkCompletePart 9 "bb"]).
    reflexivity.
  - apply (multipartUploadETag_order part_aa part_bb [] []).
    vm_compute. discriminate.
  - apply (multipartUploadETag_order part_ab part_ab1 [] []).
    reflexivity.
Defined.

(** C2, counterexample. The ETags [ab] and [ab-1] are distinct, yet both
    contribute the single byte 0xab, and the aggregate is the same in either
    order. *)
Lemma multipartUploadETag_order_insensitive_pair :
  ETag part_ab <> ETag part_ab1
  /\ multipartUploadETag [part_ab; part_ab1]
     = multipartUploadETag [part_ab1; part_ab].
Proof. split; [discriminate|]. vm_compute. reflexivity. Qed.

End ETagFacts.

(** ** The in-memory credential store *)
Module MemauthFacts.
Import Auth Memauth MemauthSamples.

Lemma Invalidate_invalid k reason d :
  invalid (fst (Invalidate k reason d)) !! k
  = Some (match invalid d !! k with Some r => r | None => reason end).
Proof.
  unfold Invalidate. destruct (invalid d !! k) as [r|] eqn:E; cbn; [exact E|].
  apply lookup_insert_eq.
Qed.

Lemma Invalidate_entries k reason d :
  entries (fst (Invalidate k reason d)) = entries d.
Proof. unfold Invalidate. destruct (invalid d !! k); reflexivity. Qed.

Lemma Invalidate_err k reason d : snd (Invalidate k reason d) = None.
Proof. unfold Invalidate. destruct (invalid d !! k); reflexivity. Qed.

(** In any state, [Get] after two invalidations fails with the reason
    recorded first, which is an earlier one when there is one. *)
Lemma Get_after_Invalidate_twice k rA rB d :
  let d1 := fst (Invalidate k rA d) in
  let d2 := fst (Invalidate k rB d1) in
  snd (Get k d2)
  = (None,
     Some (InvalidNew (match invalid d !! k with Some r => r | None => rA end))).
Proof.
  cbv zeta. unfold Get.
  rewrite Invalidate_invalid, Invalidate_invalid. reflexivity.
Qed.

(** C8. For a hash [K] with no reason recorded yet, whatever the live map
    holds for [K]: both invalidations return nil, the second leaves the store
    as the first made it, and [Get] then returns no record and the [Invalid]
    error carrying the reason of the first invalidation. *)
Theorem Invalidate_first_reason_wins (d : KV) (K : KeyHash) (rA rB : string) :
  invalid d !! K = None ->
  let '(d1, e1) := Invalidate K rA d in
  let '(d2, e2) := Invalidate K rB d1 in
  e1 = None /\ e2 = None /\ d2 = d1
  /\ entries d2 = entries d
  /\ Get K d2 = (d2, (None, Some (InvalidNew rA))).
Proof.
  intros Hfresh.
  unfold Invalidate at 1. rewrite Hfresh.
  unfold Invalidate, Get. cbn [invalid entries].
  rewrite lookup_insert_eq. cbn [invalid]. rewrite lookup_insert_eq.
  repeat split.
Qed.

Lemma Invalidate_first_reason_wins_witness :
  let d := fst (Put key1 (Some rec1) New) in
  invalid d !! key1 = None
  /\ (let '(d1, e1) := Invalidate key1 "reason-A" d in
      let '(d2, e2) := Invalidate key1 "reason-B" d1 in
      e1 = None /\ e2 = None /\ d2 = d1
      /\ entries d2 = entries d
      /\ Get key1 d2 = (d2, (None, Some (InvalidNew "reason-A")))).
Proof.
  split; [reflexivity|].
  apply (Invalidate_first_reason_wins
           (fst (Put key1 (Some rec1) New)) key1 "reason-A" "reason-B").
  reflexivity.
Defined.

(** C9. After a [Put] that succeeded for [K], a second [Put] for [K] fails
    with the already-exists error and returns the store unchanged, so that
    the live map still holds the first record under [K]. *)
Theorem Put_twice_already_exists (d d1 : KV) (K : KeyHash)
    (R1 R2 : option Record) :
  Put K R1 d = (d1, None) ->
  Put K R2 d1 = (d1, Some (ErrNew "record already exists"))
  /\ entries d1 !! K = Some R1.
Proof.
  unfold Put at 1. destruct (entries d !! K) eqn:E; [discriminate|].
  intros [= <-]. unfold Put. cbn [entries].
  rewrite lookup_insert_eq. split; reflexivity.
Qed.

Lemma Put_twice_already_exists_witness :
  Put key1 (Some rec1) New = (fst (Put key1 (Some rec1) New), None)
  /\ Put key1 (Some rec2) (fst (Put key1 (Some rec1) New))
     = (fst (Put key1 (Some rec1) New), Some (ErrNew "record already exists"))
  /\ entries (fst (Put key1 (Some rec1) New)) !! key1 = Some (Some rec1).
Proof.
  assert (H : Put key1 (Some rec1) New
              = (fst (Put key1 (Some rec1) New), None)) by reflexivity.
  split; [exact H|].
  exact (Put_twice_already_exists New _ key1 (Some rec1) (Some rec2) H).
Defined.

End MemauthFacts.

(** ** Sorting *)
Module GoSortFacts.
Import GoSort.

Section Insertion.
Context {A : Type} (less : A -> A -> bool) (R : A -> A -> Prop).
Hypothesis less_true : forall a b, less a b = true -> R a b.
Hypothesis less_false : forall a b, less a b = false -> R b a.

(** The order of a prefix that is given from its last element. *)
Local Abbreviation later := (fun a b : A => R b a).

Lemma insert_Permutation x l : Permutation (x :: l) (insert less x l).
Proof.
  induction l as [|y l IH]; [reflexivity|].
  cbn [insert]. destruct (less x y); [|reflexivity].
  rewrite perm_swap. now apply perm_skip.
Qed.

Lemma fold_insert_Permutation l prefix :
  Permutation (prefix ++ l)
    (fold_left (fun p x => insert less x p) l prefix).
Proof.
  revert prefix. induction l as [|x l IH]; intros prefix; cbn [fold_left].
  - now rewrite app_nil_r.
  - rewrite <- IH, <- insert_Permutation. cbn [app].
    symmetry. apply Permutation_middle.
Qed.

Lemma Slice_Permutation l : Permutation l (Slice less l).
Proof.
  unfold Slice. rewrite <- Permutation_rev.
  exact (fold_insert_Permutation l []).
Qed.

Lemma insert_HdRel a x l :
  later a x -> HdRel later a l -> HdRel later a (insert less x l).
Proof.
  intros Hax Hl. destruct l as [|y l]; cbn [insert]; [now constructor|].
  destruct (less x y); constructor; [|assumption].
  now inversion Hl.
Qed.

Lemma insert_Sorted x l : Sorted later l -> Sorted later (insert less x l).
Proof.
  induction 1 as [|y l Hsorted IH Hhd]; cbn [insert].
  - repeat constructor.
  - destruct (less x y) eqn:E.
    + constructor; [exact IH|]. apply insert_HdRel; [|exact Hhd].
      now apply less_true.
    + constructor; [now constructor|]. constructor. now apply less_false.
Qed.

Lemma fold_insert_Sorted l prefix :
  Sorted later prefix ->
  Sorted later (fold_left (fun p x => insert less x p) l prefix).
Proof.
  revert prefix. induction l as [|x l IH]; intros prefix H; cbn [fold_left];
    [exact H|].
  apply IH. now apply insert_Sorted.
Qed.

Lemma Sorted_snoc l a :
  Sorted R l -> HdRel later a (rev l) -> Sorted R (l ++ [a]).
Proof.
  induction 1 as [|y l Hsorted IH Hhd]; intros Hlast; cbn [app].
  - repeat constructor.
  - constructor.
    + apply IH. cbn [rev] in Hlast.
      destruct (rev l) as [|z r]; [constructor|].
      inversion Hlast; subst. now constructor.
    + destruct l as [|z l]; cbn [app].
      * constructor. cbn in Hlast. now inversion Hlast.
      * constructor. now inversion Hhd.
Qed.

Lemma Sorted_rev l : Sorted later l -> Sorted R (rev l).
Proof.
  induction 1 as [|y l Hsorted IH Hhd]; cbn [rev]; [constructor|].
  apply Sorted_snoc; [exact IH|]. now rewrite rev_involutive.
Qed.

Lemma Slice_Sorted l : Sorted R (Slice less l).
Proof.
  unfold Slice. apply Sorted_rev, fold_insert_Sorted. constructor.
Qed.

End Insertion.

Example Slice_keeps_ties :
  Slice (fun a b : Z * string => fst a <? fst b)
    [(2, "a"); (1, "b"); (2, "c"); (1, "d")]%string
  = [(1, "b"); (1, "d"); (2, "a"); (2, "c")]%string.
Proof. reflexivity. Qed.

End GoSortFacts.

(** ** The multipart methods of the gateway layer *)
Module GatewayFacts.
Import GoBytes GoStrings Errs Uplink Minio Gateway.

Ltac run :=
  unfold openProjectMultipart, projectClose, multipartPutObjectPart,
    checkBucketError in *;
  unfold bind, call, ret in *;
  cbn beta iota delta [world calls] in *.

Lemma Combine_nil_r e : Combine e None = e.
Proof. destruct e; reflexivity. Qed.

Lemma Combine_None a b : Combine a b = None -> a = None /\ b = None.
Proof. destruct a, b; cbn; intros; try discriminate; auto. Qed.

Lemma Cause_Combine e cerr :
  option_map Cause (Combine (Some e) cerr) = Some (Cause e).
Proof. destruct cerr; reflexivity. Qed.

Lemma app_three {A} (l : list A) a b c :
  ((l ++ [a]) ++ [b]) ++ [c] = l ++ [a; b; c].
Proof. now rewrite <- !app_assoc. Qed.

Section Layer.
Context {World : Type} (net : Network World).

(** C10. [GetMultipartInfo] returns its three arguments in the fields
    Bucket, Object and UploadID, the other fields being zero, with a nil
    error, for every input and in every state; the state of the network and
    the log of calls are returned as they were: no call is made and the upload
    ID is not looked up. *)
Theorem GetMultipartInfo_echo (bucket object uploadID : string)
    (s : State World) :
  GetMultipartInfo bucket object uploadID s
  = (s, (MultipartInfo.mk bucket object uploadID 0 ∅, None)).
Proof. reflexivity. Qed.

Lemma aggregate_conventional (parts : list ETag.CompletePart) :
  Forall (fun p => ETagShape.conventional (ETag.ETag p) = true) parts ->
  ETagSpec.aggregate ETagSpec.contribution (map ETag.ETag parts)
  = ETagSpec.ComputeAggregateETag (map ETag.ETag parts).
Proof.
  intros Hconv. unfold ETagSpec.ComputeAggregateETag, ETagSpec.aggregate.
  assert (Hmap : map ETagSpec.contribution (map ETag.ETag parts)
                 = map ETagSpec.contribution_suffix (map ETag.ETag parts)).
  { induction Hconv as [|p ps Hp _ IH]; [reflexivity|].
    cbn [map]. now rewrite IH, (ETagFacts.contribution_conventional _ Hp). }
  now rewrite Hmap.
Qed.

(** C3 (as amended). When [CompleteMultipartUpload] returns a nil error, the
    calls it made are the opening of the project, one completion call and
    the closing of the project; the metadata of the completion call is the
    user-defined metadata with the key [s3:etag] set to the aggregate ETag
    of the parts: the hex MD5 digest of the concatenated contributions, each
    the ETag trimmed of its quotes, cut at its first dash and hex-decoded,
    or its raw bytes, followed by a dash and the number of parts. The ETag
    of the returned object info is that aggregate ETag. It is the
    [ComputeAggregateETag] of the specification when what follows the first
    dash of every ETag is a count. *)
Theorem CompleteMultipartUpload_etag
    (accessGrant bucket object uploadID : string)
    (parts : list ETag.CompletePart) (userDefined : gmap string string)
    (s s' : State World) (objInfo : ObjectInfo.t) :
  CompleteMultipartUpload net accessGrant bucket object uploadID parts
    userDefined s = (s', (objInfo, None)) ->
  let etag :=
    ETagSpec.aggregate ETagSpec.contribution (map ETag.ETag parts) in
  exists metadata : gmap string string,
    calls s' = calls s ++ [CallOpenProject accessGrant;
                           CallCompleteMultipartUpload bucket object uploadID
                             metadata;
                           CallClose]
    /\ metadata = <["s3:etag" := etag]> userDefined
    /\ metadata !! "s3:etag" = Some etag
    /\ ObjectInfo.ETag objInfo = etag
    /\ ObjectInfo.Bucket objInfo = bucket
    /\ (Forall (fun p => ETagShape.conventional (ETag.ETag p) = true) parts ->
        etag = ETagSpec.ComputeAggregateETag (map ETag.ETag parts)).
Proof.
  unfold CompleteMultipartUpload. run.
  rewrite ETagFacts.multipartUploadETag_aggregate.
  destruct (netOpenProject net accessGrant (world s)) as [w1 [e|]];
    [discriminate|].
  cbn [world calls].
  destruct (netCompleteMultipartUpload net _ _ _ _ w1) as [w2 [obj|e]];
    cbn [world calls];
    destruct (netClose net w2) as [w3 [ce|]]; cbn; try discriminate.
  intros [= <- <-]. cbn [calls].
  eexists. split; [apply app_three|].
  split; [reflexivity|]. split; [apply lookup_insert_eq|].
  split; [reflexivity|]. split; [reflexivity|].
  apply aggregate_conventional.
Qed.

End Layer.

Lemma CompleteMultipartUpload_etag_witness :
  let parts := [ETag.mkCompletePart 1 "900150983cd24fb0d6963f7d28e17f72"] in
  let r := CompleteMultipartUpload (FixedNet.net FixedNet.ok) "grant" "b" "o"
             "U" parts ∅ FixedNet.init in
  r = (fst r, (fst (snd r), None))
  /\ ObjectInfo.ETag (fst (snd r))
     = "af5da9f45af7a300e3aded972f8ff687-1"%string
  /\ exists metadata : gmap string string,
       calls (fst r)
       = [CallOpenProject "grant";
          CallCompleteMultipartUpload "b" "o" "U" metadata; CallClose]
       /\ metadata !! "s3:etag"
          = Some "af5da9f45af7a300e3aded972f8ff687-1"%string.
Proof.
  cbv zeta. split; [reflexivity|].
  destruct (CompleteMultipartUpload_etag (FixedNet.net FixedNet.ok)
              "grant" "b" "o" "U"
              [ETag.mkCompletePart 1 "900150983cd24fb0d6963f7d28e17f72"]
              ∅ FixedNet.init _ _ eq_refl)
    as (metadata & Hcalls & _ & Hkey & Hetag & _ & _).
  assert (Hvalue :
            ETagSpec.aggregate ETagSpec.contribution
              (map ETag.ETag
                 [ETag.mkCompletePart 1 "900150983cd24fb0d6963f7d28e17f72"])
            = "af5da9f45af7a300e3aded972f8ff687-1"%string)
    by (vm_compute; reflexivity).
  rewrite Hvalue in Hkey, Hetag.
  split; [exact Hetag|]. exists metadata. split; [exact Hcalls|exact Hkey].
Defined.

(** C3, counterexample. With the single part ETag [ab-zz] the call
    succeeds, and the ETag sent under [s3:etag] and returned is that of the
    byte 0xab, the ETag cut at its dash, and not the [ComputeAggregateETag]
    of the specification, which keeps [ab-zz] and hashes its raw bytes. *)
Lemma CompleteMultipartUpload_etag_not_count_suffix :
  let parts := [ETag.mkCompletePart 1 "ab-zz"] in
  let r := CompleteMultipartUpload (FixedNet.net FixedNet.ok) "grant" "b" "o"
             "U" parts ∅ FixedNet.init in
  snd (snd r) = None
  /\ calls (fst r)
     = [CallOpenProject "grant";
        CallCompleteMultipartUpload "b" "o" "U"
          (<["s3:etag" := "2408ad11f9eb830da749e2a36a29eff7-1"%string]> ∅);
        CallClose]
  /\ ObjectInfo.ETag (fst (snd r))
     = "2408ad11f9eb830da749e2a36a29eff7-1"%string
  /\ ETagSpec.ComputeAggregateETag (map ETag.ETag parts)
     = "110ba9c03669b8f55d8c7a4000066384-1"%string
  /\ ObjectInfo.ETag (fst (snd r))
     <> ETagSpec.ComputeAggregateETag (map ETag.ETag parts).
Proof.
  cbv zeta. repeat split; try (vm_compute; reflexivity).
  vm_compute. discriminate.
Qed.

Example CompleteMultipartUpload_sample :
  ObjectInfo.ETag
    (fst (snd (CompleteMultipartUpload (FixedNet.net FixedNet.ok) "grant" "b"
                 "o" "U"
                 [ETag.mkCompletePart 1 "900150983cd24fb0d6963f7d28e17f72"]
                 ∅ FixedNet.init)))
  = "af5da9f45af7a300e3aded972f8ff687-1"%string.
Proof. vm_compute. reflexivity. Qed.

Section Parts.
Context {World : Type} (net : Network World).

Lemma fold_appendPart items acc :
  fold_left appendPart items acc = acc ++ map ListingSpec.external items.
Proof.
  revert acc. induction items as [|item items IH]; intros acc; cbn.
  - now rewrite app_nil_r.
  - rewrite IH. unfold appendPart at 1. now rewrite <- app_assoc.
Qed.

Lemma lessPartNumber_true a b :
  lessPartNumber a b = true -> ListingSpec.ascending a b.
Proof. unfold lessPartNumber, ListingSpec.ascending. lia. Qed.

Lemma lessPartNumber_false a b :
  lessPartNumber a b = false -> ListingSpec.ascending b a.
Proof. unfold lessPartNumber, ListingSpec.ascending. lia. Qed.

(** C6. When [ListObjectParts] returns a nil error, the project was opened,
    the network was asked once for the parts, with the marker
    [partNumberMarker - 1] (in the arithmetic of [int], which is exact unless
    the marker is the least [int]), and the project was closed. The parts
    returned are, up to their order, the items the network answered, each
    with its part number increased by one (in the arithmetic of [int]) and an
    empty ETag; they are in ascending order of part number; the truncation
    flag is the [More] of the network's answer. *)
Theorem ListObjectParts_spec (accessGrant bucket object uploadID : string)
    (partNumberMarker maxParts : Z) (s s' : State World)
    (result : ListPartsInfo.t) :
  ListObjectParts net accessGrant bucket object uploadID partNumberMarker
    maxParts s = (s', (result, None)) ->
  exists (w1 w2 : World) (list : PartsList.t),
    netOpenProject net accessGrant (world s) = (w1, None)
    /\ netListObjectParts net bucket object uploadID
         (GoInt.sub partNumberMarker 1) maxParts w1 = (w2, inl list)
    /\ calls s' = calls s ++ [CallOpenProject accessGrant;
                              CallListObjectParts bucket object uploadID
                                (GoInt.sub partNumberMarker 1) maxParts;
                              CallClose]
    /\ (GoInt.in_range (partNumberMarker - 1) ->
        GoInt.sub partNumberMarker 1 = partNumberMarker - 1)
    /\ Permutation (map ListingSpec.external (PartsList.Items list))
         (ListPartsInfo.Parts result)
    /\ (forall item, GoInt.in_range (Uplink.PartInfo.PartNumber item + 1) ->
        PartInfo.PartNumber (ListingSpec.external item)
        = Uplink.PartInfo.PartNumber item + 1)
    /\ Sorted ListingSpec.ascending (ListPartsInfo.Parts result)
    /\ Forall (fun p => PartInfo.ETag p = ""%string) (ListPartsInfo.Parts result)
    /\ ListPartsInfo.IsTruncated result = PartsList.More list.
Proof.
  unfold ListObjectParts. run.
  destruct (netOpenProject net accessGrant (world s)) as [w1 [e|]] eqn:Hopen;
    [discriminate|].
  cbn [world calls].
  destruct (netListObjectParts net _ _ _ _ _ w1) as [w2 [list|e]] eqn:Hlist;
    cbn [world calls];
    destruct (netClose net w2) as [w3 [ce|]]; cbn; try discriminate.
  intros [= <- <-]. cbn [calls ListPartsInfo.Parts ListPartsInfo.IsTruncated].
  exists w1, w2, list.
  pose proof (GoSortFacts.Slice_Permutation lessPartNumber
                (map ListingSpec.external (PartsList.Items list))) as Hperm.
  rewrite fold_appendPart. cbn [app].
  repeat split.
  - exact Hlist.
  - apply app_three.
  - apply GoIntFacts.sub_exact.
  - exact Hperm.
  - intros item. apply GoIntFacts.add_exact.
  - apply GoSortFacts.Slice_Sorted with (R := ListingSpec.ascending).
    + apply lessPartNumber_true.
    + apply lessPartNumber_false.
  - eapply Permutation_Forall; [exact Hperm|].
    clear. induction (PartsList.Items list) as [|item items IH]; cbn [map];
      constructor; [reflexivity|exact IH].
Qed.


End Parts.

Lemma ListObjectParts_spec_witness :
  let r := ListObjectParts (FixedNet.net FixedNet.ok) "grant" "b" "o" "U" 1 2
             FixedNet.init in
  r = (fst r, (fst (snd r), None))
  /\ map PartInfo.PartNumber (ListPartsInfo.Parts (fst (snd r))) = [1; 2; 3]
  /\ Sorted ListingSpec.ascending (ListPartsInfo.Parts (fst (snd r)))
  /\ ListPartsInfo.IsTruncated (fst (snd r)) = true.
Proof.
  cbv zeta. split; [reflexivity|]. split; [reflexivity|].
  split; [|reflexivity].
  destruct (ListObjectParts_spec (FixedNet.net FixedNet.ok) "grant" "b" "o"
              "U" 1 2 FixedNet.init _ _ eq_refl)
    as (w1 & w2 & list & _ & _ & _ & _ & _ & _ & Hsorted & _ & _).
  exact Hsorted.
Defined.



Example PutObjectPart_sample :
  snd (PutObjectPart (FixedNet.net FixedNet.ok) "grant" "b" "o" "U" 1
         (PutObjReader.mk (bytes_of_string "abc") 0) FixedNet.init)
  = (PartInfo.mk 1 0 "900150983cd24fb0d6963f7d28e17f72" 3 0, None).
Proof. vm_compute. reflexivity. Qed.

Section Validation.
Context {World : Type} (net : Network World).

(** C4 (as amended). With the project open, a call of [ListMultipartUploads]
    with an empty bucket fails with [BucketNameInvalid], and a call with a
    bucket and a delimiter that is neither empty nor a slash fails with
    [UnsupportedDelimiter] carrying the delimiter; the error is returned on
    its own when the project closes without error, and otherwise as the first
    error of the group made with the close error. In both cases the only
    calls made are the opening and the closing of the project: no listing is
    asked of the network and the bucket is not checked. *)
Theorem ListMultipartUploads_validation
    (accessGrant bucket prefix keyMarker uploadIDMarker delimiter : string)
    (maxUploads : Z) (s : State World) (w1 w2 : World) (cerr : option error) :
  netOpenProject net accessGrant (world s) = (w1, None) ->
  netClose net w1 = (w2, cerr) ->
  let outcome := ListMultipartUploads net accessGrant bucket prefix keyMarker
               uploadIDMarker delimiter maxUploads s in
  let rejected (e : error) :=
    outcome = (mkState w2 (calls s ++ [CallOpenProject accessGrant; CallClose]),
           (ListMultipartsInfo.zero, Combine (Some e) cerr))
    /\ option_map Cause (snd (snd outcome)) = Some e
    /\ (cerr = None -> snd (snd outcome) = Some e) in
  (bucket = ""%string -> rejected (BucketNameInvalid ""))
  /\ (bucket <> ""%string -> delimiter <> ""%string -> delimiter <> "/"%string ->
      rejected (UnsupportedDelimiter delimiter)).
Proof.
  intros Hopen Hclose outcome rejected.
  assert (Hrej : forall e, Cause e = e ->
             outcome
             = (mkState w2
                  (calls s ++ [CallOpenProject accessGrant; CallClose]),
                (ListMultipartsInfo.zero, Combine (Some e) cerr)) ->
             rejected e).
  { intros e Hcause He. unfold rejected. rewrite He. cbn [snd].
    split; [reflexivity|]. split; [now rewrite Cause_Combine, Hcause|].
    intros ->. reflexivity. }
  split.
  - intros ->. apply Hrej; [reflexivity|]. subst outcome.
    unfold ListMultipartUploads. run.
    rewrite Hopen. cbn. rewrite Hclose. now rewrite <- app_assoc.
  - intros Hb Hd1 Hd2. apply Hrej; [reflexivity|]. subst outcome.
    unfold ListMultipartUploads. run. rewrite Hopen. cbn [world calls].
    apply String.eqb_neq in Hb, Hd1, Hd2. rewrite Hb, Hd1, Hd2.
    cbn. rewrite Hclose. now rewrite <- app_assoc.
Qed.

End Validation.

Lemma ListMultipartUploads_validation_witness :
  ListMultipartUploads (FixedNet.net FixedNet.ok) "grant" "" "" "" "" "/" 10
    FixedNet.init
  = (mkState 2%nat [CallOpenProject "grant"; CallClose],
     (ListMultipartsInfo.zero, Some (BucketNameInvalid "")))
  /\ ListMultipartUploads (FixedNet.net FixedNet.ok) "grant" "b" "" "" "" "-" 10
       FixedNet.init
     = (mkState 2%nat [CallOpenProject "grant"; CallClose],
        (ListMultipartsInfo.zero, Some (UnsupportedDelimiter "-"))).
Proof.
  split.
  - apply (ListMultipartUploads_validation (FixedNet.net FixedNet.ok) "grant"
             "" "" "" "" "/" 10 FixedNet.init 1%nat 2%nat None
             eq_refl eq_refl).
    reflexivity.
  - apply (ListMultipartUploads_validation (FixedNet.net FixedNet.ok) "grant"
             "b" "" "" "" "-" 10 FixedNet.init 1%nat 2%nat None
             eq_refl eq_refl); discriminate.
Defined.

(** C4, counterexample. With an empty bucket and the delimiter [-], the
    error is [BucketNameInvalid] and not [UnsupportedDelimiter]: the bucket
    is checked first. And when the project cannot be opened, the error of a
    call with an empty bucket is the error of the opening. *)
Lemma ListMultipartUploads_bucket_checked_first :
  snd (snd (ListMultipartUploads (FixedNet.net FixedNet.ok) "grant" "" "" ""
              "" "-" 10 FixedNet.init))
    = Some (BucketNameInvalid "")
  /\ snd (snd (ListMultipartUploads (FixedNet.net FixedNet.ok) "grant" "" ""
                 "" "" "-" 10 FixedNet.init))
     <> Some (UnsupportedDelimiter "-")
  /\ snd (snd (ListMultipartUploads (FixedNet.net FixedNet.closed) "grant" ""
                 "" "" "" "" 10 FixedNet.init))
     = Some (ErrOther "Access key is empty").
Proof. split; [reflexivity|]. split; [discriminate|reflexivity]. Qed.

Section Page.
Variables (bucket : string) (maxUploads : Z).

Local Abbreviation quota := (ListingSpec.iterations maxUploads).

Lemma quota_stop limit len :
  (limit >? 0) || (maxUploads =? 0) = false -> quota limit len = 0%nat.
Proof.
  unfold ListingSpec.iterations. intros H. apply orb_false_iff in H as [Hl Hm].
  rewrite Hm. replace (Z.to_nat limit) with 0%nat by lia. reflexivity.
Qed.

Lemma quota_step limit len :
  (limit >? 0) || (maxUploads =? 0) = true ->
  maxUploads = 0 \/ limit <= GoInt.maxInt ->
  quota limit (S len) = S (quota (GoInt.sub limit 1) len)
  /\ (maxUploads = 0 \/ GoInt.sub limit 1 <= GoInt.maxInt).
Proof.
  unfold ListingSpec.iterations. intros Hcond Hrange.
  destruct (Z.eqb_spec maxUploads 0) as [Hz|Hnz]; [auto|].
  rewrite orb_false_r in Hcond. destruct Hrange as [?|Hmax]; [contradiction|].
  assert (Hsub : GoInt.sub limit 1 = limit - 1).
  { apply GoIntFacts.sub_exact. unfold GoInt.in_range, GoInt.minInt.
    unfold GoInt.maxInt in *. lia. }
  rewrite Hsub. split; [|lia].
  replace (Z.to_nat limit) with (S (Z.to_nat (limit - 1))) by lia.
  reflexivity.
Qed.

Lemma listLoop_run (items : list Object.t) :
  forall (fuel : nat) failure cur lim sa ups pres,
  (length items < fuel)%nat ->
  maxUploads = 0 \/ lim <= GoInt.maxInt ->
  let k := quota lim (length items) in
  let page := firstn k items in
  let l' := listLoop fuel bucket maxUploads
              (mkListing (UploadIterator.mk items failure cur None) lim sa
                 ups pres) in
  UploadIterator.pending (list_ l') = skipn k items
  /\ UploadIterator.failure (list_ l') = failure
  /\ (UploadIterator.err (list_ l') = None
      \/ (k = length items /\ UploadIterator.err (list_ l') = failure))
  /\ startAfter l' = ListingSpec.last_upload_key sa page
  /\ uploads l'
     = ups ++ map (fun o => minioMultipartInfo bucket (Some o))
                (List.filter (fun o => negb (Object.IsPrefix o)) page)
  /\ prefixes l' = pres ++ map Object.Key (List.filter Object.IsPrefix page).
Proof.
  induction items as [|o rest IH];
    intros fuel failure cur lim sa ups pres Hfuel Hrange;
    (destruct fuel as [|fuel]; [cbn in Hfuel; lia|]);
    cbn [listLoop list_ limit startAfter uploads prefixes];
    destruct ((lim >? 0) || (maxUploads =? 0)) eqn:Hcond.
  - assert (Hk : quota lim (length (@nil Object.t)) = 0%nat)
      by (unfold ListingSpec.iterations; cbn; destruct (maxUploads =? 0); lia).
    cbv zeta. rewrite Hk. cbn. rewrite !app_nil_r. tauto.
  - cbv zeta. rewrite (quota_stop _ _ Hcond). cbn. rewrite !app_nil_r. tauto.
  - destruct (quota_step lim (length rest) Hcond Hrange) as [Hk Hrange'].
    cbn [length] in *. cbv zeta. rewrite Hk.
    cbn [UploadIterator.Next UploadIterator.err UploadIterator.pending
         UploadIterator.failure UploadIterator.Item UploadIterator.current
         firstn skipn List.filter ListingSpec.last_upload_key fold_left].
    assert (Hfuel' : (length rest < fuel)%nat) by lia.
    destruct (Object.IsPrefix o) eqn:Hp; cbn [negb map].
    + specialize (IH fuel failure o (GoInt.sub lim 1) sa ups
                    (pres ++ [Object.Key o]) Hfuel' Hrange').
      cbv zeta in IH.
      destruct IH as (H1 & H2 & H3 & H4 & H5 & H6).
      rewrite H1, H2, H4, H5, H6, <- app_assoc.
      repeat split; try reflexivity.
      destruct H3 as [H3|[H3 H3']]; [left; exact H3|right].
      split; [now f_equal|exact H3'].
    + specialize (IH fuel failure o (GoInt.sub lim 1) (Object.Key o)
                    (ups ++ [minioMultipartInfo bucket (Some o)]) pres
                    Hfuel' Hrange').
      cbv zeta in IH.
      destruct IH as (H1 & H2 & H3 & H4 & H5 & H6).
      rewrite H1, H2, H4, H5, H6, <- app_assoc.
      repeat split; try reflexivity.
      destruct H3 as [H3|[H3 H3']]; [left; exact H3|right].
      split; [now f_equal|exact H3'].
  - cbv zeta. rewrite (quota_stop _ _ Hcond). cbn. rewrite !app_nil_r. tauto.
Qed.

End Page.

Lemma skipn_nil_length {A} (k : nat) (l : list A) :
  skipn k l = [] -> (length l <= k)%nat.
Proof.
  revert l. induction k as [|k IH]; intros [|x l] H; cbn in *;
    try discriminate; try lia.
  specialize (IH l H). lia.
Qed.

Lemma skipn_cons_length {A} (k : nat) (l : list A) x r :
  skipn k l = x :: r -> (k < length l)%nat /\ skipn (S k) l = r.
Proof.
  revert l. induction k as [|k IH]; intros [|y l] H; cbn in *;
    try discriminate.
  - injection H as -> ->. split; [lia|reflexivity].
  - destruct (IH l H) as [Hlt Hr]. split; [lia|exact Hr].
Qed.

(** C5 (as amended). Over an iterator that has [items] to yield, the page
    iterates the first [k] items, where [k] is the number of items when
    [maxUploads] is 0 and otherwise the lesser of [maxUploads] and the number
    of items (none when [maxUploads] is negative): every item iterated,
    common prefix or upload, consumes one unit of the limit. The prefixes
    among them are appended to the common prefixes, the uploads among them to
    the uploads, and the last upload sets the next key marker, reported when
    the page is truncated. After the page one further item is taken from the
    iterator, which sets the truncation flag and is in neither list. When the
    iterator ends with an error and the page reaches its end, that error is
    returned instead. *)
Theorem listPage_spec
    (bucket prefix keyMarker uploadIDMarker delimiter : string)
    (maxUploads : Z) (items : list Object.t) (failure : option error)
    (cur : Object.t) :
  GoInt.in_range maxUploads ->
  let list := UploadIterator.mk items failure cur None in
  let k := ListingSpec.page_size maxUploads items in
  let page := firstn k items in
  let more := (k <? length items)%nat in
  let run := listPage bucket prefix keyMarker uploadIDMarker delimiter
               maxUploads list in
  (0 < maxUploads -> Z.of_nat k <= maxUploads)
  /\ (maxUploads = 0 -> k = length items)
  /\ (maxUploads < 0 -> k = 0%nat)
  /\ UploadIterator.pending (fst run) = skipn (S k) items
  /\ snd run
     = match (if more then None else failure) with
       | Some e =>
           (ListMultipartsInfo.zero,
            Some (convertMultipartError e bucket "" ""))
       | None =>
           (ListMultipartsInfo.mk keyMarker uploadIDMarker
              (if more then ListingSpec.last_upload_key keyMarker page else "")
              "" maxUploads more
              (map (fun o => minioMultipartInfo bucket (Some o))
                 (List.filter (fun o => negb (Object.IsPrefix o)) page))
              prefix delimiter
              (map Object.Key (List.filter Object.IsPrefix page)),
            None)
       end.
Proof.
  intros Hrange list k page more run.
  assert (Hk : k = if maxUploads =? 0 then length items
                   else Nat.min (Z.to_nat maxUploads) (length items))
    by reflexivity.
  split; [intros Hpos; rewrite Hk; destruct (Z.eqb_spec maxUploads 0); lia|].
  split; [intros ->; reflexivity|].
  split; [intros Hneg; rewrite Hk; destruct (Z.eqb_spec maxUploads 0); lia|].
  pose proof (listLoop_run bucket maxUploads items (S (length items)) failure
                cur maxUploads keyMarker [] [] ltac:(lia)
                ltac:(right; apply Hrange)) as Hloop.
  cbv zeta in Hloop.
  change (ListingSpec.iterations maxUploads maxUploads (length items))
    with k in Hloop.
  fold page in Hloop.
  subst run. unfold listPage. subst list. cbn [UploadIterator.pending].
  destruct (listLoop _ _ _ _) as [[p f c e] lim sa ups pres].
  cbn [list_ startAfter uploads prefixes UploadIterator.pending
       UploadIterator.failure UploadIterator.err] in Hloop.
  destruct Hloop as (-> & -> & Herr & -> & -> & ->).
  cbn [list_ startAfter uploads prefixes UploadIterator.Err UploadIterator.err
       app].
  assert (Hend : forall c', skipn k items = [] ->
            UploadIterator.pending (UploadIterator.mk [] failure c' failure)
            = skipn (S k) items /\ more = false).
  { intros c' Hnil. apply skipn_nil_length in Hnil. split.
    - cbn [UploadIterator.pending]. symmetry. apply skipn_all2. lia.
    - subst more. apply Nat.ltb_ge. exact Hnil. }
  destruct e as [e|].
  - destruct Herr as [Herr|[Hlen Herr]]; [discriminate|].
    assert (Hnil : skipn k items = []) by (apply skipn_all2; lia).
    destruct (Hend c Hnil) as [Hp Hmore]. rewrite Hmore, <- Herr.
    cbn [fst snd UploadIterator.pending]. rewrite Hnil.
    split; [|reflexivity]. symmetry. apply skipn_all2. lia.
  - unfold UploadIterator.Next. cbn [UploadIterator.err UploadIterator.pending
      UploadIterator.failure UploadIterator.current].
    destruct (skipn k items) as [|o rest] eqn:Hskip.
    + destruct (Hend c eq_refl) as [Hp Hmore]. rewrite Hmore.
      cbn [UploadIterator.Err UploadIterator.err].
      destruct failure as [e|]; cbn [fst snd]; split; auto.
    + apply skipn_cons_length in Hskip as [Hlt Hrest].
      assert (Hmore : more = true) by (subst more; now apply Nat.ltb_lt).
      rewrite Hmore. cbn [UploadIterator.Err UploadIterator.err fst snd
                          UploadIterator.pending].
      split; [now rewrite Hrest|reflexivity].
Qed.

Lemma listPage_spec_witness :
  let items := [FixedNet.prefix_a; FixedNet.upload_b; FixedNet.upload_c] in
  let run := listPage "b" "" "" "" "/" 2
               (UploadIterator.mk items None Object.zero None) in
  GoInt.in_range 2
  /\ UploadIterator.pending (fst run) = []
  /\ snd run
     = (ListMultipartsInfo.mk "" "" "b" "" 2 true
          [MultipartInfo.mk "b" "b" "U1" 5 ∅] "" "/" ["a/"%string],
        None).
Proof.
  cbv zeta.
  assert (Hrange : GoInt.in_range 2) by (vm_compute; split; discriminate).
  split; [exact Hrange|].
  destruct (listPage_spec "b" "" "" "" "/" 2
              [FixedNet.prefix_a; FixedNet.upload_b; FixedNet.upload_c]
              None Object.zero Hrange)
    as (_ & _ & _ & Hpending & Hresult).
  split; [exact Hpending|exact Hresult].
Defined.

(** C5, counterexample. With [maxUploads] 1 over a common prefix followed by
    two uploads, the page holds the prefix alone: the prefix consumed the one
    unit of the limit, no upload is returned and the page is truncated. Were
    prefixes free of quota, the page would go on to the first upload. *)
Lemma listPage_prefix_consumes_quota :
  let items := [FixedNet.prefix_a; FixedNet.upload_b; FixedNet.upload_c] in
  let result := fst (snd (listPage "b" "" "" "" "/" 1
                            (UploadIterator.start items None))) in
  ListMultipartsInfo.CommonPrefixes result = ["a/"%string]
  /\ ListMultipartsInfo.Uploads result = []
  /\ ListMultipartsInfo.IsTruncated result = true
  /\ ListingSpec.page_prefixes_free false 1 items
     = [FixedNet.prefix_a; FixedNet.upload_b]
  /\ ListMultipartsInfo.Uploads result
     <> map (fun o => minioMultipartInfo "b" (Some o))
          (List.filter (fun o => negb (Object.IsPrefix o))
             (ListingSpec.page_prefixes_free false 1 items)).
Proof. cbv zeta. repeat split; try reflexivity. discriminate. Qed.

Section Method.
Context {World : Type} (net : Network World).

(** With the project open, a bucket and a supported delimiter,
    [ListMultipartUploads] asks the network for one iterator, over the
    pending object streams when the prefix is not empty and does not end in
    a slash, and returns the result of the page over it; the error goes
    through [checkBucketError] and is combined with that of closing the
    project. *)
Lemma ListMultipartUploads_page
    (accessGrant bucket prefix keyMarker uploadIDMarker delimiter : string)
    (maxUploads : Z) (s : State World) (w1 w2 w3 w4 : World)
    (list : UploadIterator.t) (err' cerr : option error) :
  netOpenProject net accessGrant (world s) = (w1, None) ->
  bucket <> ""%string ->
  delimiter = ""%string \/ delimiter = "/"%string ->
  let streams := negb (prefix =? "")%string && negb (HasSuffix prefix "/") in
  let page := listPage bucket prefix keyMarker uploadIDMarker delimiter
                maxUploads list in
  (if streams then netListPendingObjectStreams net bucket prefix w1
   else netListMultipartUploads net bucket prefix keyMarker
          (delimiter =? "")%string w1) = (w2, list) ->
  netCheckBucket net bucket (snd (snd page)) w2 = (w3, err') ->
  netClose net w3 = (w4, cerr) ->
  ListMultipartUploads net accessGrant bucket prefix keyMarker uploadIDMarker
    delimiter maxUploads s
  = (mkState w4
       (calls s ++ [CallOpenProject accessGrant;
                    if streams then CallListPendingObjectStreams bucket prefix
                    else CallListMultipartUploads bucket prefix keyMarker
                           (delimiter =? "")%string;
                    CallCheckBucket bucket; CallClose]),
     (fst (snd page), Combine err' cerr)).
Proof.
  intros Hopen Hb Hd streams page Hlist Hcheck Hclose.
  unfold ListMultipartUploads. run.
  rewrite Hopen. cbn [world calls].
  apply String.eqb_neq in Hb. rewrite Hb.
  assert (Hdelim : negb (delimiter =? "")%string
                   && negb (delimiter =? "/")%string = false)
    by (destruct Hd as [-> | ->]; reflexivity).
  rewrite Hdelim. fold streams. subst page.
  destruct streams; cbn beta iota delta [world calls]; rewrite Hlist;
    cbn beta iota delta [world calls];
    destruct (listPage bucket prefix keyMarker uploadIDMarker delimiter
                maxUploads list) as [it [result err]];
    cbn beta iota delta [fst snd world calls] in *; rewrite Hcheck;
    cbn beta iota delta [world calls]; rewrite Hclose;
    now rewrite <- !app_assoc.
Qed.

End Method.

Example ListMultipartUploads_sample :
  let r := ListMultipartUploads (FixedNet.net FixedNet.ok) "grant" "b" "" ""
             "" "/" 1 FixedNet.init in
  ListMultipartsInfo.CommonPrefixes (fst (snd r)) = ["a/"%string]
  /\ ListMultipartsInfo.Uploads (fst (snd r)) = []
  /\ ListMultipartsInfo.IsTruncated (fst (snd r)) = true
  /\ snd (snd r) = None.
Proof. cbv zeta. repeat split. Qed.

End GatewayFacts.

(** ** The in-memory credential store: how its methods compose *)
Module MemauthLaws.
Import Auth Memauth MemauthSamples.

Lemma KV_eq (d : KV) e i :
  e = entries d -> i = invalid d -> mkKV e i = d.
Proof. intros -> ->. now destruct d. Qed.

(** X1. A record put under a hash that has no live record is what [Get]
    returns for that hash afterwards, with a nil error, as long as the hash
    is not invalidated; [Get] leaves the store as [Put] made it. *)
Theorem Put_Get_roundtrip (d d1 : KV) (K : KeyHash) (R : option Record) :
  invalid d !! K = None ->
  Put K R d = (d1, None) ->
  Get K d1 = (d1, (R, None)).
Proof.
  intros Hvalid. unfold Put. destruct (entries d !! K); [discriminate|].
  intros [= <-]. unfold Get. cbn [invalid entries].
  now rewrite Hvalid, lookup_insert_eq.
Qed.

Lemma Put_Get_roundtrip_witness :
  invalid New !! key1 = None
  /\ Put key1 (Some rec1) New = (fst (Put key1 (Some rec1) New), None)
  /\ Get key1 (fst (Put key1 (Some rec1) New))
     = (fst (Put key1 (Some rec1) New), (Some rec1, None)).
Proof.
  split; [reflexivity|]. split; [reflexivity|].
  apply (Put_Get_roundtrip New _ key1 (Some rec1)); reflexivity.
Defined.

(** X2. [Delete] returns nil in every state, whether or not the hash was
    present, and afterwards [Get] returns no record and no error for the
    hash, also when the hash had been invalidated. *)
Theorem Delete_Get (d : KV) (K : KeyHash) :
  snd (Delete K d) = None
  /\ Get K (fst (Delete K d)) = (fst (Delete K d), (None, None)).
Proof.
  split; [reflexivity|]. unfold Delete, Get. cbn [fst invalid entries].
  now rewrite !lookup_delete_eq.
Qed.

(** X3. In every state, also one in which the hash is invalidated or holds
    a record, deleting the hash and then putting a record under it succeeds,
    and [Get] then returns that record: an invalidation does not outlive the
    deletion. *)
Theorem Delete_Put_Get (d : KV) (K : KeyHash) (R : option Record) :
  exists d2 : KV,
    Put K R (fst (Delete K d)) = (d2, None)
    /\ Get K d2 = (d2, (R, None)).
Proof.
  unfold Delete, Put. cbn [fst entries invalid]. rewrite lookup_delete_eq.
  eexists. split; [reflexivity|]. unfold Get. cbn [invalid entries].
  now rewrite lookup_delete_eq, lookup_insert_eq.
Qed.

(** X4. [Put] does not look at the invalidation map: for a hash that is
    invalidated and has no live record, [Put] succeeds and stores the
    record, yet [Get] still fails with the [Invalid] error carrying the
    recorded reason and returns no record. *)
Theorem Put_invalidated (d : KV) (K : KeyHash) (R : option Record)
    (reason : string) :
  invalid d !! K = Some reason ->
  entries d !! K = None ->
  exists d1 : KV,
    Put K R d = (d1, None)
    /\ entries d1 !! K = Some R
    /\ Get K d1 = (d1, (None, Some (InvalidNew reason))).
Proof.
  intros Hinv Hfree. unfold Put. rewrite Hfree. eexists.
  split; [reflexivity|]. cbn [entries]. split; [apply lookup_insert_eq|].
  unfold Get. cbn [invalid]. now rewrite Hinv.
Qed.

Lemma Put_invalidated_witness :
  invalid stale !! key1 = Some "old"%string
  /\ entries stale !! key1 = None
  /\ exists d1 : KV,
       Put key1 (Some rec1) stale = (d1, None)
       /\ entries d1 !! key1 = Some (Some rec1)
       /\ Get key1 d1 = (d1, (None, Some (InvalidNew "old"))).
Proof.
  split; [reflexivity|]. split; [reflexivity|].
  apply (Put_invalidated stale key1 (Some rec1) "old"); reflexivity.
Defined.

(** X5. The methods touch the hash they are given only: after [Put],
    [Delete] or [Invalidate] on a hash, whether it succeeded or not, [Get]
    returns for every other hash the record and the error it returned
    before. *)
Theorem Get_other_key (d : KV) (K K' : KeyHash) (R : option Record)
    (reason : string) :
  K <> K' ->
  snd (Get K' (fst (Put K R d))) = snd (Get K' d)
  /\ snd (Get K' (fst (Delete K d))) = snd (Get K' d)
  /\ snd (Get K' (fst (Invalidate K reason d))) = snd (Get K' d).
Proof.
  intros Hne. repeat split.
  - unfold Put. destruct (entries d !! K); [reflexivity|].
    unfold Get. cbn [fst invalid entries].
    rewrite lookup_insert_ne by exact Hne.
    destruct (invalid d !! K'); reflexivity.
  - unfold Delete, Get. cbn [fst invalid entries].
    rewrite !lookup_delete_ne by exact Hne.
    destruct (invalid d !! K'); reflexivity.
  - unfold Invalidate. destruct (invalid d !! K); [reflexivity|].
    unfold Get. cbn [fst invalid entries].
    rewrite lookup_insert_ne by exact Hne.
    destruct (invalid d !! K'); reflexivity.
Qed.

Lemma Get_other_key_witness :
  key1 <> [x00]
  /\ snd (Get [x00] (fst (Put key1 (Some rec1) New))) = snd (Get [x00] New)
  /\ snd (Get [x00] (fst (Delete key1 New))) = snd (Get [x00] New)
  /\ snd (Get [x00] (fst (Invalidate key1 "r" New))) = snd (Get [x00] New).
Proof.
  assert (H : key1 <> [x00]) by discriminate.
  split; [exact H|].
  exact (Get_other_key New key1 [x00] (Some rec1) "r" H).
Defined.

(** X6. [Invalidate] never replaces a recorded reason: on a hash that is
    already invalidated it returns nil and leaves the store as it is,
    whatever the new reason, and [Get] keeps failing with the reason
    recorded first. *)
Theorem Invalidate_keeps_reason (d : KV) (K : KeyHash) (r0 reason : string) :
  invalid d !! K = Some r0 ->
  Invalidate K reason d = (d, None)
  /\ Get K d = (d, (None, Some (InvalidNew r0))).
Proof. intros H. unfold Invalidate, Get. now rewrite H. Qed.

Lemma Invalidate_keeps_reason_witness :
  invalid stale !! key1 = Some "old"%string
  /\ Invalidate key1 "reason-A" stale = (stale, None)
  /\ Get key1 stale = (stale, (None, Some (InvalidNew "old"))).
Proof.
  split; [reflexivity|].
  apply (Invalidate_keeps_reason stale key1 "old" "reason-A"). reflexivity.
Defined.

(** X7. [Delete] is idempotent, and on a hash that has neither a live
    record nor a recorded reason it leaves the store as it is. *)
Theorem Delete_idempotent (d : KV) (K : KeyHash) :
  Delete K (fst (Delete K d)) = Delete K d
  /\ (entries d !! K = None -> invalid d !! K = None -> Delete K d = (d, None)).
Proof.
  split.
  - unfold Delete. cbn [fst entries invalid]. now rewrite !delete_delete_eq.
  - intros He Hi. unfold Delete. f_equal.
    apply KV_eq; now apply delete_id.
Qed.

Lemma Delete_idempotent_witness :
  entries stale !! [x00] = None
  /\ invalid stale !! [x00] = None
  /\ Delete [x00] stale = (stale, None).
Proof.
  split; [reflexivity|]. split; [reflexivity|].
  apply (Delete_idempotent stale [x00]); reflexivity.
Defined.

End MemauthLaws.

(** ** The database over the in-memory store *)
Module AuthDBFacts.
Import GoBytes Auth AuthDB.

Section Database.
Context {Access : Type}.
Variable Hash : EncryptionKey -> KeyHash.
Variable Serialize : Access -> string * option string.
Variable ParseAccess : string -> option Access * option string.

Local Abbreviation dbPut := (Put (S := Memauth.KV) Hash Serialize).
Local Abbreviation dbGet := (Get (S := Memauth.KV) Hash ParseAccess).

(** X8. Over the in-memory store, when the hash of the key has no record
    and is not invalidated and the access serializes, [Put] succeeds and
    [Get] with the same key then parses the very string that was serialized:
    when that parses, [Get] returns the parsed access, the placeholder secret
    key and a nil error. *)
Theorem Put_Get_access (key : EncryptionKey) (access : Access)
    (serialized : string) (db : Memauth.KV) :
  Serialize access = (serialized, None) ->
  ParseAccess serialized = (Some access, None) ->
  Memauth.entries db !! Hash key = None ->
  Memauth.invalid db !! Hash key = None ->
  exists db1 : Memauth.KV,
    dbPut key access db = (db1, None)
    /\ dbGet key db1 = (db1, (Some access, bytes_of_string "TODO", None)).
Proof.
  intros Hser Hparse Hfree Hvalid.
  unfold Put, Get. cbn [kvPut kvGet memauthKV]. rewrite Hser.
  unfold Memauth.Put. rewrite Hfree. eexists. split; [reflexivity|].
  unfold Memauth.Get. cbn [Memauth.invalid Memauth.entries].
  rewrite Hvalid, lookup_insert_eq.
  cbn [EncryptedAccessGrant EncryptedSecretKey bytes_of_string].
  unfold bytes_of_string. rewrite string_of_list_byte_of_string, Hparse.
  reflexivity.
Qed.

(** X9. Over the in-memory store, [Get] with a key whose hash is not
    invalidated and has no record, or a nil one, fails with the [NotFound]
    error whose message is the hash in hex, returns no access and no secret
    key, and leaves the store as it is. *)
Theorem Get_not_found (key : EncryptionKey) (db : Memauth.KV) :
  Memauth.invalid db !! Hash key = None ->
  Memauth.entries db !! Hash key = None
  \/ Memauth.entries db !! Hash key = Some None ->
  dbGet key db
  = (db, (None, [],
          Some (NotFoundNew
                  ("key hash: " +:+ GoHex.EncodeToString (Hash key))))).
Proof.
  intros Hvalid Hfree. unfold Get. cbn [kvGet memauthKV].
  unfold Memauth.Get. rewrite Hvalid.
  destruct Hfree as [-> | ->]; reflexivity.
Qed.

(** X10. Over the in-memory store, [Get] with a key whose hash is
    invalidated fails with the wrapped [Invalid] error carrying the recorded
    reason, whatever record is stored under the hash and whether or not it
    would parse. *)
Theorem Get_invalidated (key : EncryptionKey) (db : Memauth.KV)
    (reason : string) :
  Memauth.invalid db !! Hash key = Some reason ->
  dbGet key db = (db, (None, [], Some (Wrap (InvalidNew reason)))).
Proof.
  intros Hinv. unfold Get. cbn [kvGet memauthKV].
  unfold Memauth.Get. now rewrite Hinv.
Qed.

(** X11. Over the in-memory store, after a [Put] that succeeded for a key,
    a [Put] of an access that serializes, with that key or with any key of
    the same hash, fails with the wrapped already-exists error and leaves
    the store as it is. *)
Theorem Put_same_hash (key key' : EncryptionKey) (access access' : Access)
    (serialized' : string) (db db1 : Memauth.KV) :
  dbPut key access db = (db1, None) ->
  Hash key' = Hash key ->
  Serialize access' = (serialized', None) ->
  dbPut key' access' db1
  = (db1, Some (Wrap (ErrNew "record already exists"))).
Proof.
  unfold Put. cbn [kvPut memauthKV]. intros Hput Hhash Hser'.
  rewrite Hser', Hhash.
  destruct (Serialize access) as [ser [e|]]; [discriminate|].
  unfold Memauth.Put in *.
  destruct (Memauth.entries db !! Hash key); [discriminate|].
  injection Hput as <-. cbn [Memauth.entries].
  now rewrite lookup_insert_eq.
Qed.

End Database.

Lemma Put_Get_access_witness :
  exists db1 : Memauth.KV,
    Put Sample.Hash Sample.Serialize Sample.key "grant"%string Memauth.New
    = (db1, None)
    /\ Get Sample.Hash Sample.ParseAccess Sample.key db1
       = (db1, (Some "grant"%string, bytes_of_string "TODO", None)).
Proof.
  apply (Put_Get_access Sample.Hash Sample.Serialize Sample.ParseAccess
           Sample.key "grant"%string "grant"%string Memauth.New);
    reflexivity.
Defined.

Lemma Get_not_found_witness :
  Get Sample.Hash Sample.ParseAccess Sample.key Memauth.New
  = (Memauth.New,
     (None, [],
      Some (NotFoundNew
              ("key hash: "
               +:+ GoHex.EncodeToString (Sample.Hash Sample.key))))).
Proof.
  apply (Get_not_found Sample.Hash Sample.ParseAccess Sample.key Memauth.New);
    [reflexivity|left; reflexivity].
Defined.

Lemma Get_invalidated_witness :
  let db := fst (Memauth.Invalidate (Sample.Hash Sample.key) "revoked"
                   (fst (Put Sample.Hash Sample.Serialize Sample.key
                           "grant"%string Memauth.New))) in
  Get Sample.Hash Sample.ParseAccess Sample.key db
  = (db, (None, [], Some (Wrap (InvalidNew "revoked")))).
Proof.
  cbv zeta.
  apply (Get_invalidated Sample.Hash Sample.ParseAccess Sample.key _
           "revoked").
  vm_compute. reflexivity.
Defined.

Lemma Put_same_hash_witness :
  let db1 := fst (Put Sample.Hash Sample.Serialize Sample.key "grant"%string
                    Memauth.New) in
  Put Sample.Hash Sample.Serialize Sample.key "other"%string db1
  = (db1, Some (Wrap (ErrNew "record already exists"))).
Proof.
  cbv zeta.
  apply (Put_same_hash Sample.Hash Sample.Serialize Sample.key Sample.key
           "grant"%string "other"%string "other"%string Memauth.New);
    reflexivity.
Defined.

End AuthDBFacts.

(** ** The aggregate ETag: canonical forms and format *)
Module ETagLaws.
Import GoBytes GoStrings ETag ETagSpec ETagSamples TagShape.
Import GoStringsFacts GoHexFacts ETagFacts.

Lemma contribution_canonical e :
  contribution e
  = match GoHex.DecodeString (canonicalEtag e) with
    | Some h => h
    | None => bytes_of_string e
    end.
Proof.
  unfold contribution, contribution_with.
  now rewrite canonicalEtag_before_dash.
Qed.

(** X12. The aggregate ETag depends on a part's ETag through its canonical
    form only, when that form is hex: two lists of parts of the same length
    whose ETags have, part by part, the same canonical form, which decodes
    as hex, have the same aggregate ETag; quotes around an ETag and what
    follows its first dash make no difference. *)
Theorem multipartUploadETag_canonical (ps qs : list CompletePart) :
  Forall2
    (fun p q =>
       canonicalEtag (ETag p) = canonicalEtag (ETag q)
       /\ GoHex.DecodeString (canonicalEtag (ETag p)) <> None)
    ps qs ->
  multipartUploadETag ps = multipartUploadETag qs.
Proof.
  intros H. rewrite !multipartUploadETag_aggregate. f_equal.
  unfold aggregate. rewrite !length_map.
  assert (Hmap : map contribution (map ETag ps)
                 = map contribution (map ETag qs)).
  { induction H as [|p q ps qs [Hc Hhex] _ IH]; [reflexivity|].
    cbn [map]. rewrite IH. f_equal.
    rewrite !contribution_canonical, <- Hc.
    destruct (GoHex.DecodeString (canonicalEtag (ETag p)));
      [reflexivity|contradiction]. }
  rewrite Hmap. do 3 f_equal.
  apply (f_equal (@length _)) in Hmap. rewrite !length_map in Hmap.
  now rewrite Hmap.
Qed.

Lemma multipartUploadETag_canonical_witness :
  multipartUploadETag
    [mkCompletePart 1 "900150983cd24fb0d6963f7d28e17f72-3";
     mkCompletePart 2 "0f5c"]
  = multipartUploadETag two_parts.
Proof.
  apply multipartUploadETag_canonical. unfold two_parts.
  repeat (constructor; [split; [vm_compute; reflexivity
                               |vm_compute; discriminate]|]).
  constructor.
Defined.

Lemma hexdigits_lower b :
  is_hex_lower (GoHex.hexdigit (Z.shiftr (Z_of_byte b) 4))
  && is_hex_lower (GoHex.hexdigit (Z.land (Z_of_byte b) 15)) = true.
Proof. destruct b; reflexivity. Qed.

Lemma EncodeToString_lower l :
  all_chars is_hex_lower (GoHex.EncodeToString l) = true.
Proof.
  induction l as [|b l IH]; [reflexivity|].
  cbn [GoHex.EncodeToString all_chars]. rewrite IH, andb_true_r.
  apply hexdigits_lower.
Qed.

(** X13. Whatever the parts, [multipartUploadETag] returns a nil error and a
    string made of 32 lower-case hexadecimal digits, a dash and the number
    of parts in decimal. *)
Theorem multipartUploadETag_format (parts : list CompletePart) :
  exists digest : string,
    multipartUploadETag parts
    = (digest +:+ "-" +:+ Itoa (Z.of_nat (length parts)), None)
    /\ String.length digest = 32%nat
    /\ all_chars is_hex_lower digest = true.
Proof.
  exists (GoHex.EncodeToString
            (GoMD5.Sum (concat (map contribution (map ETag parts))))).
  split; [|split].
  - rewrite multipartUploadETag_aggregate. unfold aggregate.
    now rewrite length_map.
  - now rewrite EncodeToString_length, GoMD5Facts.Sum_length.
  - apply EncodeToString_lower.
Qed.

Lemma before_dash_no_dash s : IndexByte (before_dash s) dash = -1.
Proof.
  induction s as [|c s IH]; [reflexivity|].
  cbn [before_dash]. destruct (Ascii.eqb c dash) eqn:E; [reflexivity|].
  cbn [IndexByte]. rewrite E, IH. reflexivity.
Qed.

Lemma dropByte_head c l a r : dropByte c l = a :: r -> Ascii.eqb a c = false.
Proof.
  induction l as [|b l IH]; cbn [dropByte]; [discriminate|].
  destruct (Ascii.eqb b c) eqn:E; [exact IH|].
  intros [= <- _]. exact E.
Qed.

Lemma trim_quotes_head e a r :
  trim_quotes e = String a r -> Ascii.eqb a dquote = false.
Proof.
  unfold trim_quotes. rewrite <- dropByte_trimRight.
  destruct (dropByte dquote _) as [|b l] eqn:E; cbn; [discriminate|].
  intros [= <- _]. exact (dropByte_head _ _ _ _ E).
Qed.

(** X14. The canonical form of an ETag holds no dash and does not begin
    with a quote. *)
Theorem canonicalEtag_shape (e : string) :
  IndexByte (canonicalEtag e) dash = -1
  /\ forall rest, canonicalEtag e <> String dquote rest.
Proof.
  rewrite canonicalEtag_before_dash. split; [apply before_dash_no_dash|].
  intros rest H.
  destruct (trim_quotes e) as [|a r] eqn:E; [discriminate|].
  apply trim_quotes_head in E. cbn [before_dash] in H.
  destruct (Ascii.eqb a dash); [discriminate|].
  injection H as -> _. discriminate.
Qed.

Lemma list_ascii_of_append (a b : string) :
  list_ascii_of_string (a +:+ b)
  = list_ascii_of_string a ++ list_ascii_of_string b.
Proof.
  induction a as [|x a IH]; [reflexivity|].
  change (x :: list_ascii_of_string (a +:+ b)
          = x :: (list_ascii_of_string a ++ list_ascii_of_string b)).
  now rewrite IH.
Qed.

Lemma all_chars_forallb P s :
  all_chars P s = forallb P (list_ascii_of_string s).
Proof. induction s as [|c s IH]; cbn; [reflexivity|now rewrite IH]. Qed.

Lemma dropByte_quotes ql l :
  forallb is_quote ql = true ->
  dropByte dquote (ql ++ l) = dropByte dquote l.
Proof.
  induction ql as [|c ql IH]; [reflexivity|]. cbn [forallb app dropByte].
  intros H. apply andb_true_iff in H as [Hc Hq]. unfold is_quote in Hc.
  rewrite Hc. now apply IH.
Qed.

Lemma dropByte_all_quotes ql :
  forallb is_quote ql = true -> dropByte dquote ql = [].
Proof.
  intros H. rewrite <- (app_nil_r ql). now rewrite dropByte_quotes.
Qed.

Lemma plain_not_quote c : plain c = true -> Ascii.eqb c dquote = false.
Proof.
  unfold plain. intros H. apply andb_true_iff in H as [H _].
  now apply negb_true_iff in H.
Qed.

Lemma plain_not_dash c : plain c = true -> Ascii.eqb c dash = false.
Proof.
  unfold plain. intros H. apply andb_true_iff in H as [_ H].
  now apply negb_true_iff in H.
Qed.

Lemma dropByte_plain h l :
  forallb plain h = true ->
  dropByte dquote (h ++ dash :: l) = h ++ dash :: l.
Proof.
  destruct h as [|c h]; [reflexivity|]. cbn [forallb app dropByte].
  intros H. apply andb_true_iff in H as [Hc _].
  now rewrite (plain_not_quote _ Hc).
Qed.

Lemma trimRight_dash h t :
  rev (dropByte dquote (rev (h ++ dash :: t)))
  = h ++ dash :: rev (dropByte dquote (rev t)).
Proof.
  induction h as [|a h IH]; cbn [app].
  - rewrite trimRight_cons.
    destruct (rev (dropByte dquote (rev t))); reflexivity.
  - rewrite trimRight_cons, IH. destruct h; reflexivity.
Qed.

Lemma trimRight_plain h qr :
  forallb plain h = true -> forallb is_quote qr = true ->
  rev (dropByte dquote (rev (h ++ qr))) = h.
Proof.
  intros Hh Hq. induction h as [|a h IH]; cbn [app].
  - rewrite dropByte_all_quotes; [reflexivity|].
    rewrite forallb_forall in *. intros x Hx. apply Hq.
    now apply in_rev.
  - cbn [forallb] in Hh. apply andb_true_iff in Hh as [Ha Hh].
    rewrite trimRight_cons, (IH Hh). cbn [dropByte].
    rewrite (plain_not_quote _ Ha). destruct h; reflexivity.
Qed.

Lemma before_dash_plain h :
  forallb plain h = true ->
  before_dash (string_of_list_ascii h) = string_of_list_ascii h
  /\ forall t, before_dash (string_of_list_ascii (h ++ dash :: t))
               = string_of_list_ascii h.
Proof.
  induction h as [|a h IH]; cbn [forallb app string_of_list_ascii before_dash].
  - intros _. split; reflexivity.
  - intros H. apply andb_true_iff in H as [Ha Hh].
    rewrite (plain_not_dash _ Ha). destruct (IH Hh) as [IH1 IH2].
    split; [now rewrite IH1|]. intros t. now rewrite IH2.
Qed.

Lemma canonicalEtag_dash (tag rest : string) :
  all_chars plain tag = true ->
  canonicalEtag (tag +:+ "-" +:+ rest) = tag.
Proof.
  rewrite all_chars_forallb. intros Ht.
  rewrite canonicalEtag_before_dash. unfold trim_quotes.
  rewrite !list_ascii_of_append.
  change (list_ascii_of_string "-" ++ list_ascii_of_string rest)
    with (dash :: list_ascii_of_string rest).
  rewrite (dropByte_plain _ _ Ht), trimRight_dash.
  destruct (before_dash_plain _ Ht) as [_ Hb]. rewrite Hb.
  apply string_of_list_ascii_of_string.
Qed.

(** X15. For a tag made of characters other than the quote and the dash,
    [canonicalEtag] recovers the tag from every form an S3 client may give
    it: bare or between quotes, and followed or not by a dash and anything
    more. *)
Theorem canonicalEtag_recovers (ql qr tag rest : string) :
  all_chars is_quote ql = true ->
  all_chars is_quote qr = true ->
  all_chars plain tag = true ->
  canonicalEtag (ql +:+ tag +:+ qr) = tag
  /\ canonicalEtag (ql +:+ tag +:+ "-" +:+ rest) = tag.
Proof.
  rewrite !all_chars_forallb. intros Hl Hr Ht.
  rewrite !canonicalEtag_before_dash. unfold trim_quotes.
  rewrite !list_ascii_of_append, !dropByte_quotes by exact Hl.
  destruct (before_dash_plain _ Ht) as [Hb1 Hb2].
  split.
  - destruct (list_ascii_of_string tag) as [|a h] eqn:E.
    + cbn [app]. rewrite (dropByte_all_quotes _ Hr). cbn.
      rewrite <- (string_of_list_ascii_of_string tag), E. reflexivity.
    + assert (Ha : Ascii.eqb a dquote = false).
      { cbn [forallb] in Ht. apply andb_true_iff in Ht as [Ha _].
        now apply plain_not_quote. }
      cbn [app dropByte]. rewrite Ha.
      change (a :: h ++ list_ascii_of_string qr)
        with ((a :: h) ++ list_ascii_of_string qr).
      rewrite (trimRight_plain _ _ Ht Hr), Hb1, <- E.
      apply string_of_list_ascii_of_string.
  - change (list_ascii_of_string "-" ++ list_ascii_of_string rest)
      with (dash :: list_ascii_of_string rest).
    rewrite ?(dropByte_quotes _ _ Hl).
    rewrite (dropByte_plain _ _ Ht), trimRight_dash, Hb2.
    apply string_of_list_ascii_of_string.
Qed.

Lemma canonicalEtag_recovers_witness :
  canonicalEtag
    (String dquote EmptyString +:+ "0f5c" +:+ String dquote EmptyString)
  = "0f5c"%string
  /\ canonicalEtag
       (String dquote EmptyString +:+ "0f5c" +:+ "-" +:+
        ("12" +:+ String dquote EmptyString))
     = "0f5c"%string.
Proof.
  apply (canonicalEtag_recovers (String dquote EmptyString)
           (String dquote EmptyString) "0f5c"
           ("12" +:+ String dquote EmptyString)); reflexivity.
Defined.

Lemma hexdigits_plain b :
  plain (GoHex.hexdigit (Z.shiftr (Z_of_byte b) 4))
  && plain (GoHex.hexdigit (Z.land (Z_of_byte b) 15)) = true.
Proof. destruct b; reflexivity. Qed.

Lemma EncodeToString_plain l :
  all_chars plain (GoHex.EncodeToString l) = true.
Proof.
  induction l as [|b l IH]; [reflexivity|].
  cbn [GoHex.EncodeToString all_chars]. rewrite IH, andb_true_r.
  apply hexdigits_plain.
Qed.

(** X16. An aggregate ETag can stand for a part in a later aggregate: as
    the ETag of a part, whatever the part number, the string that
    [multipartUploadETag] returns contributes the 16 bytes of its own MD5
    digest, not its characters. *)
Theorem aggregate_as_part (parts : list CompletePart) (n : Z) :
  appendHash [] (mkCompletePart n (fst (multipartUploadETag parts)))
  = GoMD5.Sum (fold_left appendHash parts [])
  /\ length (GoMD5.Sum (fold_left appendHash parts [])) = 16%nat.
Proof.
  split; [|apply GoMD5Facts.Sum_length].
  unfold appendHash at 1, multipartUploadETag. cbn [fst ETag].
  rewrite append_assoc.
  rewrite (canonicalEtag_dash _ _ (EncodeToString_plain _)).
  rewrite DecodeString_EncodeToString. reflexivity.
Qed.

End ETagLaws.

(** ** The multipart methods of the gateway layer: failures and the log *)
Module GatewayLaws.
Import GoBytes GoStrings Errs Uplink Minio Gateway GatewayLog.
Import GatewayFacts.

Ltac step :=
  unfold openProjectMultipart, projectClose, multipartPutObjectPart,
    checkBucketError in *;
  unfold bind, call, ret in *;
  cbn beta iota delta [world calls fst snd] in *.

Ltac closing mid :=
  cbn [fst calls]; exists mid;
  split; [now rewrite <- ?app_assoc|reflexivity].

Section Layer.
Context {World : Type} (net : Network World).

(** X17. Each of the four methods that open the project closes it on every
    path, once and last: whatever the network answers, when the opening of
    the project succeeds the calls a method adds to the log are the opening,
    calls that neither open nor close the project, and the closing; when the
    opening fails, they are the opening alone. *)
Theorem project_closed_once
    (accessGrant bucket object uploadID prefix keyMarker uploadIDMarker
       delimiter : string)
    (partID partNumberMarker maxParts maxUploads : Z)
    (data : PutObjReader.t) (parts : list ETag.CompletePart)
    (userDefined : gmap string string) (s : State World) :
  let ok := opened (netOpenProject net accessGrant (world s)) in
  scoped ok accessGrant (calls s)
    (calls (fst (PutObjectPart net accessGrant bucket object uploadID partID
                   data s)))
  /\ scoped ok accessGrant (calls s)
       (calls (fst (CompleteMultipartUpload net accessGrant bucket object
                      uploadID parts userDefined s)))
  /\ scoped ok accessGrant (calls s)
       (calls (fst (ListObjectParts net accessGrant bucket object uploadID
                      partNumberMarker maxParts s)))
  /\ scoped ok accessGrant (calls s)
       (calls (fst (ListMultipartUploads net accessGrant bucket prefix
                      keyMarker uploadIDMarker delimiter maxUploads s))).
Proof.
  cbv zeta. unfold opened. repeat split.
  - unfold PutObjectPart. step.
    destruct (netOpenProject net accessGrant (world s)) as [w1 [e|]];
      cbn [snd scoped]; [reflexivity|].
    cbn beta iota delta [world calls fst snd].
    destruct (netPutObjectPart net _ _ _ _ _ w1) as [w2 [n [p|e]]];
      cbn beta iota delta [world calls fst snd];
      destruct (netClose net w2) as [w3 cerr];
      closing [CallPutObjectPart bucket object uploadID (GoInt.sub partID 1)].
  - unfold CompleteMultipartUpload. step.
    rewrite ETagFacts.multipartUploadETag_aggregate.
    destruct (netOpenProject net accessGrant (world s)) as [w1 [e|]];
      cbn [snd scoped]; [reflexivity|].
    cbn beta iota delta [world calls fst snd].
    destruct (netCompleteMultipartUpload net _ _ _ _ w1) as [w2 [o|e]];
      cbn beta iota delta [world calls fst snd];
      destruct (netClose net w2) as [w3 cerr];
      closing [CallCompleteMultipartUpload bucket object uploadID
                 (<["s3:etag" := ETagSpec.aggregate ETagSpec.contribution
                                   (map ETag.ETag parts)]> userDefined)].
  - unfold ListObjectParts. step.
    destruct (netOpenProject net accessGrant (world s)) as [w1 [e|]];
      cbn [snd scoped]; [reflexivity|].
    cbn beta iota delta [world calls fst snd].
    destruct (netListObjectParts net _ _ _ _ _ w1) as [w2 [l|e]];
      cbn beta iota delta [world calls fst snd];
      destruct (netClose net w2) as [w3 cerr];
      closing [CallListObjectParts bucket object uploadID
                 (GoInt.sub partNumberMarker 1) maxParts].
  - unfold ListMultipartUploads. step.
    destruct (netOpenProject net accessGrant (world s)) as [w1 [e|]];
      cbn [snd scoped]; [reflexivity|].
    cbn beta iota delta [world calls fst snd].
    destruct (bucket =? "")%string.
    { cbn beta iota delta [world calls fst snd].
      destruct (netClose net w1) as [w3 cerr]. closing (@nil Call). }
    destruct (negb (delimiter =? "")%string && negb (delimiter =? "/")%string).
    { cbn beta iota delta [world calls fst snd].
      destruct (netClose net w1) as [w3 cerr]. closing (@nil Call). }
    destruct (negb (prefix =? "")%string && negb (HasSuffix prefix "/"));
      cbn beta iota delta [world calls fst snd].
    + destruct (netListPendingObjectStreams net bucket prefix w1) as [w2 it].
      cbn beta iota delta [world calls fst snd].
      destruct (listPage bucket prefix keyMarker uploadIDMarker delimiter
                  maxUploads it) as [it' [result err]].
      cbn beta iota delta [world calls fst snd].
      destruct (netCheckBucket net bucket err w2) as [w3 err'].
      cbn beta iota delta [world calls fst snd].
      destruct (netClose net w3) as [w4 cerr].
      closing [CallListPendingObjectStreams bucket prefix;
               CallCheckBucket bucket].
    + destruct (netListMultipartUploads net bucket prefix keyMarker
                  (delimiter =? "")%string w1) as [w2 it].
      cbn beta iota delta [world calls fst snd].
      destruct (listPage bucket prefix keyMarker uploadIDMarker delimiter
                  maxUploads it) as [it' [result err]].
      cbn beta iota delta [world calls fst snd].
      destruct (netCheckBucket net bucket err w2) as [w3 err'].
      cbn beta iota delta [world calls fst snd].
      destruct (netClose net w3) as [w4 cerr].
      closing [CallListMultipartUploads bucket prefix keyMarker
                 (delimiter =? "")%string;
               CallCheckBucket bucket].
Qed.

End Layer.
Section Failures.
Context {World : Type} (net : Network World).

(** X18. When the project cannot be opened, each of the four methods
    returns the zero value and the error of the opening as it is, and makes
    no other call: the arguments are not validated and the network is not
    asked anything more. *)
Theorem open_failure
    (accessGrant bucket object uploadID prefix keyMarker uploadIDMarker
       delimiter : string)
    (partID partNumberMarker maxParts maxUploads : Z)
    (data : PutObjReader.t) (parts : list ETag.CompletePart)
    (userDefined : gmap string string) (s : State World) (w1 : World)
    (err : error) :
  netOpenProject net accessGrant (world s) = (w1, Some err) ->
  let s1 := mkState w1 (calls s ++ [CallOpenProject accessGrant]) in
  PutObjectPart net accessGrant bucket object uploadID partID data s
    = (s1, (PartInfo.zero, Some err))
  /\ CompleteMultipartUpload net accessGrant bucket object uploadID parts
       userDefined s
     = (s1, (ObjectInfo.zero, Some err))
  /\ ListObjectParts net accessGrant bucket object uploadID partNumberMarker
       maxParts s
     = (s1, (ListPartsInfo.zero, Some err))
  /\ ListMultipartUploads net accessGrant bucket prefix keyMarker
       uploadIDMarker delimiter maxUploads s
     = (s1, (ListMultipartsInfo.zero, Some err)).
Proof.
  intros Hopen s1.
  unfold PutObjectPart, CompleteMultipartUpload, ListObjectParts,
    ListMultipartUploads.
  step. rewrite Hopen. repeat split.
Qed.


(** X20. With the project open, when the network fails to list the parts,
    [ListObjectParts] returns the zero result; the error is
    [InvalidUploadID] with the bucket, object and upload ID when the network
    found the stream ID invalid, and the converted error of the network
    otherwise, combined with the error of closing the project. *)
Theorem ListObjectParts_failure
    (accessGrant bucket object uploadID : string)
    (partNumberMarker maxParts : Z)
    (s : State World) (w1 w2 w3 : World) (e : error) (cerr : option error) :
  netOpenProject net accessGrant (world s) = (w1, None) ->
  netListObjectParts net bucket object uploadID
    (GoInt.sub partNumberMarker 1) maxParts w1 = (w2, inr e) ->
  netClose net w2 = (w3, cerr) ->
  ListObjectParts net accessGrant bucket object uploadID partNumberMarker
    maxParts s
  = (mkState w3
       (calls s ++ [CallOpenProject accessGrant;
                    CallListObjectParts bucket object uploadID
                      (GoInt.sub partNumberMarker 1) maxParts;
                    CallClose]),
     (ListPartsInfo.zero,
      Combine
        (Some (if IsStreamIDInvalid e
               then InvalidUploadID bucket object uploadID
               else convertError e bucket object))
        cerr)).
Proof.
  intros Hopen Hnet Hclose. unfold ListObjectParts. step.
  rewrite Hopen. cbn beta iota delta [world calls fst snd].
  rewrite Hnet. cbn beta iota delta [world calls fst snd].
  rewrite Hclose. now rewrite app_three.
Qed.

(** X21. When [ListObjectParts] returns a nil error, the result repeats the
    bucket, the object, the upload ID, the marker and the maximum it was
    given, its storage class is empty, it holds as many parts as the network
    answered items, and its next part number marker is the marker it was
    given, also when the list is truncated: the marker does not advance. *)
Theorem ListObjectParts_echo (accessGrant bucket object uploadID : string)
    (partNumberMarker maxParts : Z) (s s' : State World)
    (result : ListPartsInfo.t) :
  ListObjectParts net accessGrant bucket object uploadID partNumberMarker
    maxParts s = (s', (result, None)) ->
  exists (w1 w2 : World) (list : PartsList.t),
    netOpenProject net accessGrant (world s) = (w1, None)
    /\ netListObjectParts net bucket object uploadID
         (GoInt.sub partNumberMarker 1) maxParts w1 = (w2, inl list)
    /\ result
       = ListPartsInfo.mk bucket object uploadID "" partNumberMarker
           partNumberMarker maxParts (PartsList.More list)
           (ListPartsInfo.Parts result)
    /\ length (ListPartsInfo.Parts result) = length (PartsList.Items list).
Proof.
  unfold ListObjectParts. step.
  destruct (netOpenProject net accessGrant (world s)) as [w1 [e|]] eqn:Hopen;
    [discriminate|].
  cbn beta iota delta [world calls fst snd].
  destruct (netListObjectParts net _ _ _ _ _ w1) as [w2 [list|e]] eqn:Hlist;
    cbn beta iota delta [world calls fst snd];
    destruct (netClose net w2) as [w3 [ce|]]; cbn; try discriminate.
  intros [= <- <-]. exists w1, w2, list.
  split; [reflexivity|]. split; [exact Hlist|]. split; [reflexivity|].
  cbn [ListPartsInfo.Parts].
  rewrite <- (Permutation_length
                (GoSortFacts.Slice_Permutation lessPartNumber _)).
  rewrite fold_appendPart. cbn [app]. apply length_map.
Qed.

(** X22. With the project open, a bucket and a supported delimiter,
    [ListMultipartUploads] asks the network for one listing: of the pending
    object streams of the bucket under the prefix, when the prefix is not
    empty and does not end in a slash, and otherwise of the multipart
    uploads under the prefix, from the key marker, recursively exactly when
    the delimiter is empty. It then has the bucket error checked and closes
    the project. *)
Theorem ListMultipartUploads_strategy
    (accessGrant bucket prefix keyMarker uploadIDMarker delimiter : string)
    (maxUploads : Z) (s : State World) (w1 : World) :
  netOpenProject net accessGrant (world s) = (w1, None) ->
  bucket <> ""%string ->
  delimiter = ""%string \/ delimiter = "/"%string ->
  calls (fst (ListMultipartUploads net accessGrant bucket prefix keyMarker
                uploadIDMarker delimiter maxUploads s))
  = calls s ++
    [CallOpenProject accessGrant;
     if negb (prefix =? "")%string && negb (HasSuffix prefix "/")
     then CallListPendingObjectStreams bucket prefix
     else CallListMultipartUploads bucket prefix keyMarker
            (delimiter =? "")%string;
     CallCheckBucket bucket; CallClose].
Proof.
  intros Hopen Hb Hd.
  destruct ((if negb (prefix =? "")%string && negb (HasSuffix prefix "/")
             then netListPendingObjectStreams net bucket prefix w1
             else netListMultipartUploads net bucket prefix keyMarker
                    (delimiter =? "")%string w1)) as [w2 list] eqn:Hlist.
  destruct (netCheckBucket net bucket
              (snd (snd (listPage bucket prefix keyMarker uploadIDMarker
                           delimiter maxUploads list))) w2)
    as [w3 err'] eqn:Hcheck.
  destruct (netClose net w3) as [w4 cerr] eqn:Hclose.
  now rewrite (ListMultipartUploads_page net accessGrant bucket prefix
                 keyMarker uploadIDMarker delimiter maxUploads s w1 w2 w3 w4
                 list err' cerr Hopen Hb Hd Hlist Hcheck Hclose).
Qed.

(** X23. With the project open, when the network stores the part and has
    read the data to its end, the ETag that [PutObjectPart] returns is the
    hex MD5 digest of the whole content of the part. *)
Theorem PutObjectPart_whole_content
    (accessGrant bucket object uploadID : string) (partID : Z)
    (data : PutObjReader.t) (s : State World) (w1 w2 : World) (n : nat)
    (partInfo : Uplink.PartInfo.t) :
  netOpenProject net accessGrant (world s) = (w1, None) ->
  netPutObjectPart net bucket object uploadID (GoInt.sub partID 1)
    (skipn (PutObjReader.consumed data) (PutObjReader.content data)) w1
  = (w2, (n, inl partInfo)) ->
  (length (PutObjReader.content data) <= PutObjReader.consumed data + n)%nat ->
  PartInfo.ETag
    (fst (snd (PutObjectPart net accessGrant bucket object uploadID partID
                 data s)))
  = GoHex.EncodeToString (GoMD5.Sum (PutObjReader.content data)).
Proof.
  intros Hopen Hput Hall. unfold PutObjectPart. step.
  rewrite Hopen. cbn beta iota delta [world calls fst snd].
  rewrite Hput. cbn beta iota delta [world calls fst snd].
  destruct (netClose net w2) as [w3 cerr].
  cbn [fst snd PartInfo.ETag].
  unfold PutObjReader.MD5CurrentHexString, PutObjReader.read.
  cbn [PutObjReader.consumed PutObjReader.content].
  rewrite Nat.min_r by exact Hall. now rewrite firstn_all.
Qed.

End Failures.

Lemma open_failure_witness :
  PutObjectPart (FixedNet.net FixedNet.closed) "grant" "b" "o" "U" 1
    (PutObjReader.mk (bytes_of_string "abc") 0) FixedNet.init
  = (mkState 1%nat [CallOpenProject "grant"],
     (PartInfo.zero, Some (ErrOther "Access key is empty")))
  /\ ListMultipartUploads (FixedNet.net FixedNet.closed) "grant" "" "" "" ""
       "-" 10 FixedNet.init
     = (mkState 1%nat [CallOpenProject "grant"],
        (ListMultipartsInfo.zero, Some (ErrOther "Access key is empty"))).
Proof.
  destruct (open_failure (FixedNet.net FixedNet.closed) "grant" "b" "o" "U"
              "" "" "" "" 1 0 0 0 (PutObjReader.mk (bytes_of_string "abc") 0)
              [] ∅ FixedNet.init 1%nat (ErrOther "Access key is empty")
              eq_refl) as (Hput & _ & _ & _).
  destruct (open_failure (FixedNet.net FixedNet.closed) "grant" "" "o" "U"
              "" "" "" "-" 1 0 0 10
              (PutObjReader.mk (bytes_of_string "abc") 0)
              [] ∅ FixedNet.init 1%nat (ErrOther "Access key is empty")
              eq_refl) as (_ & _ & _ & Hlist).
  split; [exact Hput|exact Hlist].
Defined.


Lemma ListObjectParts_failure_witness :
  snd (ListObjectParts (FixedNet.net FixedNet.gone) "grant" "b" "o" "U" 1 2
         FixedNet.init)
  = (ListPartsInfo.zero, Some (InvalidUploadID "b" "o" "U")).
Proof.
  rewrite (ListObjectParts_failure (FixedNet.net FixedNet.gone)
             "grant" "b" "o" "U" 1 2 FixedNet.init
             1%nat 2%nat 3%nat ErrStreamIDInvalid None
             eq_refl eq_refl eq_refl).
  reflexivity.
Defined.

Lemma ListObjectParts_echo_witness :
  let r := ListObjectParts (FixedNet.net FixedNet.ok) "grant" "b" "o" "U" 1 2
             FixedNet.init in
  r = (fst r, (fst (snd r), None))
  /\ ListPartsInfo.NextPartNumberMarker (fst (snd r)) = 1
  /\ ListPartsInfo.IsTruncated (fst (snd r)) = true
  /\ length (ListPartsInfo.Parts (fst (snd r))) = 3%nat.
Proof.
  cbv zeta. split; [reflexivity|].
  destruct (ListObjectParts_echo (FixedNet.net FixedNet.ok) "grant" "b" "o"
              "U" 1 2 FixedNet.init _ _ eq_refl)
    as (w1 & w2 & list & _ & Hlist & _ & Hlen).
  injection Hlist as _ <-.
  split; [reflexivity|]. split; [reflexivity|exact Hlen].
Defined.

Lemma ListMultipartUploads_strategy_witness :
  calls (fst (ListMultipartUploads (FixedNet.net FixedNet.ok) "grant" "b"
                "dir/file" "k" "" "/" 10 FixedNet.init))
  = [CallOpenProject "grant"; CallListPendingObjectStreams "b" "dir/file";
     CallCheckBucket "b"; CallClose]
  /\ calls (fst (ListMultipartUploads (FixedNet.net FixedNet.ok) "grant" "b"
                   "dir/" "k" "" "" 10 FixedNet.init))
     = [CallOpenProject "grant"; CallListMultipartUploads "b" "dir/" "k" true;
        CallCheckBucket "b"; CallClose].
Proof.
  split.
  - apply (ListMultipartUploads_strategy (FixedNet.net FixedNet.ok) "grant"
             "b" "dir/file" "k" "" "/" 10 FixedNet.init 1%nat eq_refl);
      [discriminate|now right].
  - apply (ListMultipartUploads_strategy (FixedNet.net FixedNet.ok) "grant"
             "b" "dir/" "k" "" "" 10 FixedNet.init 1%nat eq_refl);
      [discriminate|now left].
Defined.

Lemma PutObjectPart_whole_content_witness :
  PartInfo.ETag
    (fst (snd (PutObjectPart (FixedNet.net FixedNet.ok) "grant" "b" "o" "U" 1
                 (PutObjReader.mk (bytes_of_string "abc") 1)
                 FixedNet.init)))
  = GoHex.EncodeToString (GoMD5.Sum (bytes_of_string "abc")).
Proof.
  apply (PutObjectPart_whole_content (FixedNet.net FixedNet.ok) "grant" "b"
           "o" "U" 1 (PutObjReader.mk (bytes_of_string "abc") 1)
           FixedNet.init 1%nat 2%nat 2%nat (Uplink.PartInfo.mk 0 3 7)
           eq_refl eq_refl).
  cbn. lia.
Defined.

End GatewayLaws.

(** ** Beginning and aborting an upload *)
Module UploadsFacts.
Import Errs Uploads.

Section Layer.
Context {World : Type} (net : UploadNetwork World).


(** X25. [AbortMultipartUpload] passes its context on as it is. With the
    project open, it asks the network once to abort the upload and closes
    the project; it returns the error of closing the project when the
    network aborted the upload, and otherwise, combined with that error,
    [InvalidUploadID] with the bucket, object and upload ID when the network
    found the stream ID invalid, or the converted error of the network. *)
Theorem AbortMultipartUpload_spec (ctx : Context)
    (bucket object uploadID : string) (s : UploadState World) (w1 w2 w3 : World)
    (aerr cerr : option error) :
  upOpenProject net ctx (accessGrant ctx) (uworld s) = (w1, None) ->
  upAbortMultipartUpload net ctx bucket object uploadID w1 = (w2, aerr) ->
  upClose net w2 = (w3, cerr) ->
  AbortMultipartUpload net ctx bucket object uploadID s
  = (mkUploadState w3
       (ucalls s ++ [OpenProjectCall ctx (accessGrant ctx);
                    AbortMultipartUploadCall ctx bucket object uploadID;
                    CloseCall]),
     match aerr with
     | None => cerr
     | Some e =>
         Combine
           (Some (if IsStreamIDInvalid e
                  then InvalidUploadID bucket object uploadID
                  else convertError e bucket object))
           cerr
     end).
Proof.
  intros Hopen Habort Hclose. unfold AbortMultipartUpload, callNetwork.
  unfold getAccessGrant. rewrite Hopen. cbn [uworld ucalls]. rewrite Habort.
  cbn [uworld ucalls]. rewrite Hclose. rewrite <- !app_assoc.
  destruct aerr as [e|]; [reflexivity|]. destruct cerr; reflexivity.
Qed.

End Layer.


Lemma AbortMultipartUpload_spec_witness :
  let begun := fst (NewMultipartUpload Pending.net Pending.ctx "b" "o"
                      Pending.init) in
  let aborted := AbortMultipartUpload Pending.net Pending.ctx "b" "o"
                   "stream-0" begun in
  snd aborted = None
  /\ uworld (fst aborted) = []
  /\ snd (AbortMultipartUpload Pending.net Pending.ctx "b" "o" "stream-0"
            (fst aborted))
     = Some (InvalidUploadID "b" "o" "stream-0").
Proof.
  cbv zeta.
  pose proof (AbortMultipartUpload_spec Pending.net Pending.ctx "b" "o"
                "stream-0"
                (fst (NewMultipartUpload Pending.net Pending.ctx "b" "o"
                        Pending.init))
                ["stream-0"%string] [] [] None None eq_refl eq_refl eq_refl)
    as H1.
  pose proof (AbortMultipartUpload_spec Pending.net Pending.ctx "b" "o"
                "stream-0"
                (fst (AbortMultipartUpload Pending.net Pending.ctx "b" "o"
                        "stream-0"
                        (fst (NewMultipartUpload Pending.net Pending.ctx "b"
                                "o" Pending.init))))
                [] [] []
                (Some (ErrWrap "abort" ErrStreamIDInvalid)) None
                eq_refl eq_refl eq_refl)
    as H2.
  split; [now rewrite H1|]. split; [now rewrite H1|].
  now rewrite H2.
Defined.

End UploadsFacts.
